(** * The sails-db2 Waterline adapter (index.js): query builder, type mapper
      and operation executor, with the properties of its specification. *)

From Stdlib Require Import Arith NArith List String Ascii Bool Lia Setoid.
From Stdlib Require Import Numbers.DecimalString Numbers.DecimalN Numbers.DecimalPos.
Import ListNotations.
Open Scope string_scope.

(** ** JavaScript values

    The values that reach the adapter in where/sort/limit/values maps and in
    driver rows.  A number is given by the text that JavaScript writes for
    it (Number::toString): "5", "-12", "1.5", "1e+21", "Infinity", "NaN";
    0 and -0 are both written "0".  Two numbers other than NaN are the same
    number exactly when they are written the same, and what the adapter
    does with a number is to write it into a statement, to compare it with
    0 and to have lodash take it for a length. *)
Module Js.

Inductive value : Type :=
| Undefined
| Null
| Bool (b : bool)
| Number (text : string)
| Str (s : string).

Definition value_eq_dec (a b : value) : {a = b} + {a <> b}.
Proof.
  decide equality;
    [apply Bool.bool_dec | apply string_dec | apply string_dec].
Defined.

(** [a === b] on these values; NaN is not equal to itself. *)
Definition strict_eq (a b : value) : bool :=
  match a, b with
  | Number x, Number y => (x =? y) && negb (x =? "NaN")
  | _, _ => if value_eq_dec a b then true else false
  end.

Definition string_of_N (n : N) : string :=
  NilZero.string_of_uint (N.to_uint n).

(** The string put in place of a value by ['...' + v]. *)
Definition toString (v : value) : string :=
  match v with
  | Undefined => "undefined"
  | Null => "null"
  | Bool true => "true"
  | Bool false => "false"
  | Number text => text
  | Str s => s
  end.

(** [Array.prototype.join]. *)
Definition join (sep : string) (l : list string) : string :=
  String.concat sep l.

(** [s.replace(pat, by)] with a one-character string pattern: only the
    first occurrence is replaced. *)
Fixpoint replace_first (pat : ascii) (by_ : string) (s : string) : string :=
  match s with
  | EmptyString => EmptyString
  | String c rest =>
      if Ascii.eqb c pat then by_ ++ rest
      else String c (replace_first pat by_ rest)
  end.

Definition is_space (c : ascii) : bool :=
  let n := nat_of_ascii c in
  (Nat.eqb n 32 || (Nat.leb 9 n && Nat.leb n 13))%bool.

Fixpoint trim_start (s : string) : string :=
  match s with
  | String c rest => if is_space c then trim_start rest else s
  | EmptyString => EmptyString
  end.

Fixpoint rev_string (s : string) : string :=
  match s with
  | EmptyString => EmptyString
  | String c rest => rev_string rest ++ String c EmptyString
  end.

(** [String.prototype.trim] (ASCII white space). *)
Definition trim (s : string) : string :=
  rev_string (trim_start (rev_string (trim_start s))).

(** An object used as a map: its own enumerable properties in iteration
    order. *)
Definition object (A : Type) : Type := list (string * A).

Definition keys {A} (o : object A) : list string := map fst o.

Fixpoint get {A} (o : object A) (k : string) : option A :=
  match o with
  | [] => None
  | (k', v) :: rest => if String.eqb k' k then Some v else get rest k
  end.

Definition hasOwnProperty {A} (o : object A) (k : string) : bool :=
  match get o k with Some _ => true | None => false end.

(** [o[k] = v]: an existing property keeps its place. *)
Fixpoint set {A} (o : object A) (k : string) (v : A) : object A :=
  match o with
  | [] => [(k, v)]
  | (k', v') :: rest =>
      if String.eqb k' k then (k', v) :: rest else (k', v') :: set rest k v
  end.

Fixpoint remove {A} (o : object A) (k : string) : object A :=
  match o with
  | [] => []
  | (k', v') :: rest =>
      if String.eqb k' k then remove rest k else (k', v') :: remove rest k
  end.

(** lodash's [_.isEmpty]: strings are empty when of length 0; undefined,
    null, booleans and numbers have no own enumerable properties and are
    all empty. *)
Definition _isEmpty (v : value) : bool :=
  match v with
  | Str s => Nat.eqb (String.length s) 0
  | Undefined | Null | Bool _ | Number _ => true
  end.

(** [o[k]]: a property that is absent reads as undefined. *)
Definition prop (o : object value) (k : string) : value :=
  match get o k with Some v => v | None => Undefined end.

Definition MAX_SAFE_INTEGER : N := 9007199254740991.

(** lodash's [isLength]: the value is a whole number from 0 to
    MAX_SAFE_INTEGER; such a number is written with its decimal digits. *)
Definition isLength (v : value) : option N :=
  match v with
  | Number text =>
      match NilZero.uint_of_string text with
      | Some u =>
          let n := N.of_uint u in
          if (string_of_N n =? text) && (n <=? MAX_SAFE_INTEGER)%N
          then Some n else None
      | None => None
      end
  | _ => None
  end.

(** The pairs (key, value) that lodash's [_.each(o, function (value, key))]
    hands to its function, in order.  An object whose [length] property
    [isLength] is taken for an array: the keys are the indices below the
    length and the values the properties of these names, undefined where
    there is none.  Any other object gives its own properties.  (This is
    [_.each] since lodash 3; lodash 2 also takes a [length] that is negative
    or not whole for the length of an array.) *)
Definition _each (o : object value) : list (string * value) :=
  match get o "length" with
  | Some v =>
      match isLength v with
      | Some n =>
          map (fun i => let key := string_of_N (N.of_nat i) in (key, prop o key))
              (seq 0 (N.to_nat n))
      | None => o
      end
  | None => o
  end.

End Js.

(** ** Type mapper *)

Definition typeMap : Js.object string :=
  [ ("TIMESTMP", "time"); ("TIME", "time"); ("DATE", "date");
    ("BINARY", "binary"); ("VARBINARY", "binary");
    ("CHAR", "string"); ("VARCHAR", "string"); ("GRAPHIC", "string");
    ("VARGRAPHIC", "string");
    ("SMALLINT", "integer"); ("INTEGER", "integer"); ("BIGINT", "integer");
    ("DECIMAL", "float"); ("DECFLOAT", "float"); ("REAL", "float");
    ("DOUBLE", "float");
    ("CLOB", "text"); ("BLOB", "text"); ("DBCLOB", "text"); ("XML", "text") ].

(** [attrType] is [None] when the attribute has no [type] property. *)
Definition getSqlType (attrType : option string) : string :=
  match attrType with
  | Some t =>
      if t =? "string" then "VARCHAR"
      else if t =? "integer" then "INTEGER"
      else if t =? "float" then "DOUBLE"
      else if t =? "text" then "BLOB"
      else if t =? "binary" then "VARBINARY"
      else if t =? "time" then "TIMESTMP"
      else if t =? "date" then "DATE"
      else ""
  | None => ""
  end.

(** The abstract kinds of the type mapper. *)
Definition abstract_kinds : list string :=
  ["string"; "integer"; "float"; "text"; "binary"; "time"; "date"].

(** ** Data model *)

(** An attribute of a definition.  [attr_type] is the [type] property when
    it is a string and [None] otherwise (no such property, or a value that
    is no string): the adapter only compares a type with strings. *)
Record AttributeSpec : Type := {
  attr_type : option string;
  primaryKey : bool;
  autoIncrement : bool;
  unique : bool;
  attr_length : option N
}.

(** A collection of a connection.  The adapter calls
    [collection.definition.hasOwnProperty(column)]: no attribute of a
    definition is called hasOwnProperty. *)
Record Collection : Type := {
  tableName : string;
  definition : Js.object AttributeSpec
}.

Record Options : Type := {
  opt_where : Js.object Js.value;
  opt_sort : Js.object Js.value;
  opt_limit : Js.value
}.

Record Config : Type := {
  identity : option string;
  database : string;
  host : string;
  user : string;
  password : string;
  port : N;
  pool : bool
}.

(** ** Query builder *)

Definition getConnectionString (config : Config) : string :=
  Js.join ";"
    [ "DRIVER={DB2}";
      "DATABASE=" ++ database config;
      "HOSTNAME=" ++ host config;
      "UID=" ++ user config;
      "PWD=" ++ password config;
      "PORT=" ++ Js.string_of_N (port config);
      "PROTOCOL=TCPIP" ].

Definition escape (word : string) : string :=
  "'" ++ Js.replace_first "'"%char "''" word ++ "'".

Definition getSelectAttributes (collection : Collection) : string :=
  Js.join "," (Js.keys (definition collection)).

(** The column clause pushed on [schemaData] for one attribute of [define]. *)
Definition define_attrQuery (attrName : string) (attribute : AttributeSpec) : string :=
  let attrType := getSqlType (attr_type attribute) in
  if primaryKey attribute then
    if autoIncrement attribute
    then attrName ++ " INTEGER GENERATED ALWAYS AS IDENTITY PRIMARY KEY"
    else attrName ++ " VARCHAR(255) NOT NULL PRIMARY KEY"
  else if attrType =? "VARCHAR" then
    let len := match attr_length attribute with
               | Some n => if N.eqb n 0 then 255%N else n
               | None => 255%N
               end in
    attrName ++ " " ++ attrType ++ "(" ++ Js.string_of_N len ++ ")"
  else attrName ++ " " ++ attrType.

Definition define_schemaData (definition : Js.object AttributeSpec) : list string :=
  fold_left (fun schemaData '(attrName, attribute) =>
               (schemaData ++ [define_attrQuery attrName attribute])%list)
            definition [].

Definition define_query (collectionName : string)
    (definition : Js.object AttributeSpec) : string :=
  let query := "CREATE TABLE " ++ collectionName in
  let schemaQuery := "(" ++ Js.join "," (define_schemaData definition) ++ ")" in
  query ++ " " ++ schemaQuery.

Definition describe_query (collectionName : string) : string :=
  "SELECT DISTINCT(NAME), COLTYPE, IDENTITY, KEYSEQ, NULLS FROM Sysibm.syscolumns WHERE tbname = "
  ++ escape collectionName.

Definition drop_query (tableName : string) : string := "DROP TABLE " ++ tableName.

(** The loop shared by [find] and [destroy]: one [column = ?] and one bound
    parameter per pair that [_.each] takes from [options.where] and whose
    column is defined. *)
Definition where_bound (definition : Js.object AttributeSpec)
    (where_ : Js.object Js.value) : list string * list Js.value :=
  fold_left (fun '(whereData, params) '(column, param) =>
               if Js.hasOwnProperty definition column
               then ((whereData ++ [(column ++ " = ?")%string])%list, (params ++ [param])%list)
               else (whereData, params))
            (Js._each where_) ([], []).

(** [whereQuery += whereData.join(' AND '); if (whereQuery.length > 0) ...] *)
Definition whereQuery_of (whereData : list string) : string :=
  let whereQuery := "" ++ Js.join " AND " whereData in
  if Nat.ltb 0 (String.length whereQuery) then " WHERE " ++ whereQuery else whereQuery.

Definition find_limitQuery (options : Options) : string :=
  if negb (Js._isEmpty (opt_limit options))
  then " FETCH FIRST " ++ Js.toString (opt_limit options) ++ " ROWS ONLY "
  else "".

Definition find_sortData (definition : Js.object AttributeSpec)
    (sort : Js.object Js.value) : list string :=
  fold_left (fun sortData '(column, direction) =>
               if Js.hasOwnProperty definition column
               then (sortData ++ [(column ++ " " ++ Js.toString direction)%string])%list
               else sortData)
            (Js._each sort) [].

Definition find_sortQuery (collection : Collection) (options : Options) : string :=
  let sortQuery := "" ++ Js.join ", " (find_sortData (definition collection) (opt_sort options)) in
  if Nat.ltb 0 (String.length sortQuery) then " ORDER BY " ++ sortQuery else sortQuery.

Definition find_whereQuery (collection : Collection) (options : Options) : string :=
  whereQuery_of (fst (where_bound (definition collection) (opt_where options))).

Definition find_params (collection : Collection) (options : Options) : list Js.value :=
  snd (where_bound (definition collection) (opt_where options)).

(** The statement and the bound parameters of [__FIND__]. *)
Definition find_sql (collection : Collection) (options : Options)
  : string * list Js.value :=
  let selectQuery := "SELECT " ++ getSelectAttributes collection in
  let fromQuery := " FROM " ++ tableName collection in
  let limitQuery := find_limitQuery options in
  let whereQuery := find_whereQuery collection options in
  let sortQuery := find_sortQuery collection options in
  ("" ++ (selectQuery ++ fromQuery ++ whereQuery ++ sortQuery ++ limitQuery),
   find_params collection options).

(** The [columns] and [questions] arrays of [__CREATE__]. *)
Definition create_columns_questions (definition : Js.object AttributeSpec)
    (values : Js.object Js.value) : list string * list string :=
  fold_left (fun '(columns, questions) '(column, param) =>
               if Js.hasOwnProperty definition column
               then ((columns ++ [column])%list,
                     (questions ++ [("'" ++ Js.toString param ++ "'")%string])%list)
               else (columns, questions))
            (Js._each values) ([], []).

Definition create_sql (collection : Collection) (values : Js.object Js.value) : string :=
  let selectQuery := getSelectAttributes collection in
  let '(columns, questions) := create_columns_questions (definition collection) values in
  "SELECT " ++ selectQuery ++ " FROM FINAL TABLE (INSERT INTO " ++ tableName collection
  ++ " (" ++ Js.join "," columns ++ ") VALUES (" ++ Js.join "," questions ++ "))".

(** [!collection.definition[column].autoIncrement], for a defined column. *)
Definition not_autoIncrement (definition : Js.object AttributeSpec) (column : string) : bool :=
  match Js.get definition column with
  | Some attribute => negb (autoIncrement attribute)
  | None => true
  end.

(** The [setData] array of [__UPDATE__]. *)
Definition update_setData (definition : Js.object AttributeSpec)
    (values : Js.object Js.value) : list string :=
  fold_left (fun setData '(column, param) =>
               if Js.hasOwnProperty definition column && not_autoIncrement definition column
               then (setData ++ [(column ++ " = " ++ "'" ++ Js.toString param ++ "'")%string])%list
               else setData)
            (Js._each values) [].

Definition update_whereData (definition : Js.object AttributeSpec)
    (where_ : Js.object Js.value) : list string :=
  fold_left (fun whereData '(column, param) =>
               if Js.hasOwnProperty definition column
               then (whereData ++ [(column ++ " = " ++ "'" ++ Js.toString param ++ "'")%string])%list
               else whereData)
            (Js._each where_) [].

Definition update_setQuery (collection : Collection) (values : Js.object Js.value) : string :=
  " SET " ++ Js.join "," (update_setData (definition collection) values).

Definition update_sql (collection : Collection) (options : Options)
    (values : Js.object Js.value) : string :=
  let selectQuery := getSelectAttributes collection in
  let setQuery := update_setQuery collection values in
  let whereQuery := whereQuery_of (update_whereData (definition collection) (opt_where options)) in
  "SELECT " ++ selectQuery ++ " FROM FINAL TABLE (UPDATE " ++ tableName collection
  ++ setQuery ++ whereQuery ++ ")".

Definition destroy_sql (collection : Collection) (options : Options)
  : string * list Js.value :=
  let '(whereData, params) := where_bound (definition collection) (opt_where options) in
  ("DELETE FROM " ++ tableName collection ++ whereQuery_of whereData, params).

(** ** Rows and the post-processing of [describe] *)

Definition Row : Type := Js.object Js.value.

(** [row.NAME]: a property that is absent reads as undefined. *)
Definition field (row : Row) (name : string) : Js.value :=
  match Js.get row name with Some v => v | None => Js.Undefined end.

(** The property names that a plain object inherits from Object.prototype:
    read on an object they give a function (an object under "__proto__")
    though the object has no such property of its own, and an assignment
    to "__proto__" makes no property.  The properties of the registry
    that depend on a name being absent are stated for the other names. *)
Definition inherited_property (name : string) : bool :=
  existsb (String.eqb name)
    ["constructor"; "hasOwnProperty"; "isPrototypeOf"; "propertyIsEnumerable";
     "toLocaleString"; "toString"; "valueOf"; "__proto__";
     "__defineGetter__"; "__defineSetter__"; "__lookupGetter__"; "__lookupSetter__"].

(** [typeMap[name]] when it is a string, which it is exactly when
    [typeMap] has [name] as a property of its own. *)
Definition typeMap_kind (name : string) : option string :=
  if inherited_property name then None else Js.get typeMap name.

(** The test of [describe] on one catalog row whose type maps to [type]. *)
Definition is_identity_key (attr : Row) (type : option string) : bool :=
  Js.strict_eq (field attr "IDENTITY") (Js.Str "Y")
  && negb (Js.strict_eq (field attr "KEYSEQ") (Js.Number "0"))
  && Js.strict_eq (field attr "NULLS") (Js.Str "N")
  && match type with Some t => t =? "integer" | None => false end.

(** The [attribute] object built for one catalog row; [None] is the
    TypeError of [attr.COLTYPE.trim()] on a value that is not a string.
    When [typeMap[...]] is no string (it is undefined, or what every
    object inherits under a name such as "constructor") the type of the
    attribute is no string either and [attr_type] is [None]. *)
Definition describe_attribute (attr : Row) : option AttributeSpec :=
  match field attr "COLTYPE" with
  | Js.Str coltype =>
      let type := typeMap_kind (Js.trim coltype) in
      let flag := is_identity_key attr type in
      Some {| attr_type := type; primaryKey := flag; autoIncrement := flag;
              unique := flag; attr_length := None |}
  | _ => None
  end.

(** [attrs.forEach(...)] over the catalog rows, from [attributes = {}].
    [attributes[attr.NAME] = attribute] makes or replaces the property of
    that name; under the name "__proto__" it makes none. *)
Fixpoint describe_forEach (attrs : list Row) (attributes : Js.object AttributeSpec)
  : option (Js.object AttributeSpec) :=
  match attrs with
  | [] => Some attributes
  | attr :: rest =>
      match describe_attribute attr with
      | Some attribute =>
          let name := Js.toString (field attr "NAME") in
          describe_forEach rest
            (if name =? "__proto__" then attributes
             else Js.set attributes name attribute)
      | None => None
      end
  end.

(** ** Driver, registry and event loop

    The driver (ibm_db) is outside the adapter: [open] and [query] take a
    callback that the driver calls in a later turn of the event loop.  An
    oracle gives the driver's answer to the request that ends the trace; the
    callbacks wait in a first-in first-out queue.  A handle is a number; the
    driver and the pool give out a handle that they have not given out
    before (the adapter hands no handle back to the pool).

    The trace records what the adapter does to the outside: the handles it
    asks for, the statements it issues, the handles it closes, the calls of
    the caller's callback, and a TypeError thrown by the adapter's code. *)

Definition Handle : Type := nat.

Record DriverError : Type := {
  state : option string;
  message : string
}.

(** [err.state === code] *)
Definition state_is (err : DriverError) (code : string) : bool :=
  match state err with Some s => s =? code | None => false end.

(** The second argument of the caller's callback. *)
Inductive Result : Type :=
| RNone
| RRows (rows : list Row)
| RRow (row : option Row)
| RNull
| RAttributes (attributes : Js.object AttributeSpec).

Inductive Event : Type :=
| EvOpen (viaPool : bool) (connectionString : string)
| EvQuery (conn : Handle) (sql : string) (params : option (list Js.value))
| EvClose (conn : Handle)
| EvCb (err : option DriverError) (result : Result)
| EvTypeError.

(** The driver's answers: to an open request, an error or none; to a
    statement, an error or rows.  The argument is the trace up to and with
    the request. *)
Record Driver : Type := {
  drv_open : list Event -> option DriverError;
  drv_query : list Event -> DriverError + list Row
}.

(** An entry of [me.connections]; [rc_pool] tells whether its [pool]
    property holds a pool. *)
Record RegisteredConnection : Type := {
  config : Config;
  collections : Js.object Collection;
  rc_pool : bool;
  conn : option Handle
}.

(** The callback given to [adapter.query]. *)
Inductive QueryCb : Type := CbCaller | CbDefine | CbDescribe.

(** What an [operationCallback] goes on with once the handle is there;
    [collection] is [connection.collections[collectionName]] as read when
    the operation was called. *)
Inductive Op : Type :=
| OpQuery (query : string) (data : option (list Js.value)) (cb : QueryCb)
| OpDrop (collectionName : string) (relations : list string)
| OpFind (collection : option Collection) (options : Options)
| OpCreate (collection : option Collection) (values : Js.object Js.value)
| OpUpdate (collection : option Collection) (options : Options)
           (values : Js.object Js.value)
| OpDestroy (collection : option Collection) (options : Options).

(** The callbacks handed to [conn.query]. *)
Inductive Kont : Type :=
| K_query_callback (cb : QueryCb)
| K_next (connectionName collectionName : string) (rest : list string)
| K_passCallback
| K_cb
| K_first_row.

(** A callback that waits for its turn, with the driver's answer. *)
Inductive Pending : Type :=
| POpen (connectionName : string) (op : Op) (answer : DriverError + Handle)
| PQuery (k : Kont) (answer : DriverError + list Row).

(** [me.connections], the trace, the next handle of the driver and the
    waiting callbacks.  The [connection] object that the closures of an
    operation hold is the registry entry of its name. *)
Record World : Type := {
  connections : Js.object RegisteredConnection;
  trace : list Event;
  next_handle : Handle;
  queue : list Pending
}.

Definition emit (e : Event) (w : World) : World :=
  {| connections := connections w; trace := trace w ++ [e];
     next_handle := next_handle w; queue := queue w |}.

Definition schedule (p : Pending) (w : World) : World :=
  {| connections := connections w; trace := trace w;
     next_handle := next_handle w; queue := queue w ++ [p] |}.

Definition set_queue (q : list Pending) (w : World) : World :=
  {| connections := connections w; trace := trace w;
     next_handle := next_handle w; queue := q |}.

Definition set_connections (cs : Js.object RegisteredConnection) (w : World) : World :=
  {| connections := cs; trace := trace w;
     next_handle := next_handle w; queue := queue w |}.

Definition fresh_handle (w : World) : World :=
  {| connections := connections w; trace := trace w;
     next_handle := S (next_handle w); queue := queue w |}.

Definition cb (err : option DriverError) (result : Result) (w : World) : World :=
  emit (EvCb err result) w.

(** [connection.conn] of the entry registered under [connectionName]. *)
Definition handle_of (w : World) (connectionName : string) : option Handle :=
  match Js.get (connections w) connectionName with
  | Some connection => conn connection
  | None => None
  end.

(** [connection.conn = conn] *)
Definition set_conn (connectionName : string) (h : Handle) (w : World) : World :=
  match Js.get (connections w) connectionName with
  | Some connection =>
      set_connections
        (Js.set (connections w) connectionName
           {| config := config connection; collections := collections connection;
              rc_pool := rc_pool connection; conn := Some h |}) w
  | None => w
  end.

Section Executor.

Variable d : Driver.

(** [h.query(sql, params, k)] *)
Definition conn_query (h : Handle) (sql : string)
    (params : option (list Js.value)) (k : Kont) (w : World) : World :=
  let w1 := emit (EvQuery h sql params) w in
  schedule (PQuery k (drv_query d (trace w1))) w1.

Definition __QUERY__ (connectionName query : string)
    (data : option (list Js.value)) (qcb : QueryCb) (w : World) : World :=
  match handle_of w connectionName with
  | Some h => conn_query h query data (K_query_callback qcb) w
  | None => emit EvTypeError w
  end.

Definition dropTable (connectionName tableName : string) (next : Kont)
    (w : World) : World :=
  match handle_of w connectionName with
  | Some h => conn_query h (drop_query tableName) None next w
  | None => emit EvTypeError w
  end.

(** [async.eachSeries(relations, dropTable, function (err) {...})] from
    the element it has come to: the iterator on the first relation left,
    or, when none is left, the final callback without error. *)
Definition eachSeries (connectionName collectionName : string)
    (relations : list string) (w : World) : World :=
  match relations with
  | [] => dropTable connectionName collectionName K_passCallback w
  | tableName :: rest =>
      dropTable connectionName tableName
        (K_next connectionName collectionName rest) w
  end.

Definition __DROP__ (connectionName collectionName : string)
    (relations : list string) (w : World) : World :=
  match handle_of w connectionName with
  | Some h =>
      let w1 := eachSeries connectionName collectionName relations w in
      conn_query h ("DROP TABLE " ++ collectionName)
        (Some (map Js.Str relations)) K_passCallback w1
  | None => emit EvTypeError w
  end.

Definition __FIND__ (connectionName : string) (collection : option Collection)
    (options : Options) (w : World) : World :=
  match collection, handle_of w connectionName with
  | Some c, Some h =>
      let '(sqlQuery, params) := find_sql c options in
      conn_query h sqlQuery (Some params) K_cb w
  | _, _ => emit EvTypeError w
  end.

Definition __CREATE__ (connectionName : string) (collection : option Collection)
    (values : Js.object Js.value) (w : World) : World :=
  match collection, handle_of w connectionName with
  | Some c, Some h => conn_query h (create_sql c values) None K_first_row w
  | _, _ => emit EvTypeError w
  end.

Definition __UPDATE__ (connectionName : string) (collection : option Collection)
    (options : Options) (values : Js.object Js.value) (w : World) : World :=
  match collection, handle_of w connectionName with
  | Some c, Some h => conn_query h (update_sql c options values) None K_first_row w
  | _, _ => emit EvTypeError w
  end.

Definition __DESTROY__ (connectionName : string) (collection : option Collection)
    (options : Options) (w : World) : World :=
  match collection, handle_of w connectionName with
  | Some c, Some h =>
      let '(sql, params) := destroy_sql c options in
      conn_query h sql (Some params) K_cb w
  | _, _ => emit EvTypeError w
  end.

(** [__QUERY__()], [__DROP__()], ... of the operation that was called. *)
Definition run_op (connectionName : string) (op : Op) (w : World) : World :=
  match op with
  | OpQuery query data qcb => __QUERY__ connectionName query data qcb w
  | OpDrop collectionName relations =>
      __DROP__ connectionName collectionName relations w
  | OpFind collection options => __FIND__ connectionName collection options w
  | OpCreate collection values => __CREATE__ connectionName collection values w
  | OpUpdate collection options values =>
      __UPDATE__ connectionName collection options values w
  | OpDestroy collection options =>
      __DESTROY__ connectionName collection options w
  end.

(** The callback that [define], [describe] or the caller gave to
    [adapter.query]: inside [query] it is [cb], which the callback of
    [__QUERY__] calls with the driver's answer and which the
    operationCallback of [query] calls with the error of an open request. *)
Definition query_cb (qcb : QueryCb) (answer : DriverError + list Row)
    (w : World) : World :=
  match qcb, answer with
  | CbCaller, inl err => cb (Some err) RNone w
  | CbCaller, inr records => cb None (RRows records) w
  | CbDefine, inl err =>
      if negb (state_is err "42S01") then cb (Some err) RNone w
      else cb None (RRows []) w
  | CbDefine, inr result => cb None (RRows result) w
  | CbDescribe, inl err => cb (Some err) RNone w
  | CbDescribe, inr attrs =>
      if Nat.eqb (List.length attrs) 0 then cb None RNull w
      else match describe_forEach attrs [] with
           | Some attributes => cb None (RAttributes attributes) w
           | None => emit EvTypeError w
           end
  end.

(** The operationCallback of the operation that was called.  An error of
    the open request goes to [cb]: for [query], [define] and [describe]
    that is the callback given to [adapter.query]. *)
Definition operationCallback (connectionName : string) (op : Op)
    (answer : DriverError + Handle) (w : World) : World :=
  match answer with
  | inl err =>
      match op with
      | OpQuery _ _ qcb => query_cb qcb (inl err) w
      | _ => cb (Some err) RNone w
      end
  | inr h => run_op connectionName op (set_conn connectionName h w)
  end.

Definition passCallback (answer : DriverError + list Row) (w : World) : World :=
  match answer with
  | inl err =>
      if negb (state_is err "42S02") then cb (Some err) RNone w
      else cb None (RRows []) w
  | inr result => cb None (RRows result) w
  end.

Definition run_kont (k : Kont) (answer : DriverError + list Row)
    (w : World) : World :=
  match k with
  | K_query_callback qcb => query_cb qcb answer w
  | K_next connectionName collectionName rest =>
      match answer with
      | inl err => cb (Some err) RNone w
      | inr _ => eachSeries connectionName collectionName rest w
      end
  | K_passCallback => passCallback answer w
  | K_cb =>
      match answer with
      | inl err => cb (Some err) RNone w
      | inr rows => cb None (RRows rows) w
      end
  | K_first_row =>
      match answer with
      | inl err => cb (Some err) RNone w
      | inr results => cb None (RRow (hd_error results)) w
      end
  end.

Definition run_pending (p : Pending) (w : World) : World :=
  match p with
  | POpen connectionName op answer => operationCallback connectionName op answer w
  | PQuery k answer => run_kont k answer w
  end.

(** One turn of the event loop: the oldest waiting callback runs. *)
Definition step (w : World) : World :=
  match queue w with
  | [] => w
  | p :: rest => run_pending p (set_queue rest w)
  end.

Fixpoint run (turns : nat) (w : World) : World :=
  match turns with
  | O => w
  | S n => run n (step w)
  end.

(** A bound on the turns a waiting callback can cause. *)
Definition turns_of (p : Pending) : nat :=
  match p with
  | POpen _ (OpDrop _ relations) _ => 4 + List.length relations
  | POpen _ _ _ => 2
  | PQuery (K_next _ _ rest) _ => 2 + List.length rest
  | PQuery _ _ => 1
  end.

Definition turns_left (w : World) : nat :=
  fold_right (fun p n => turns_of p + n) 0 (queue w).

(** The event loop run until no callback waits. *)
Definition settle (w : World) : World := run (turns_left w) w.

(** The part every operation ends with:
    [if (connection.pool) return connection.pool.open(connectionString, operationCallback);
     else return db2.open(connectionString, operationCallback);]
    An unregistered name is a TypeError in [getConnectionString]. *)
Definition start (connectionName : string) (op : Op) (w : World) : World :=
  match Js.get (connections w) connectionName with
  | None => emit EvTypeError w
  | Some connection =>
      let w1 := emit (EvOpen (rc_pool connection)
                             (getConnectionString (config connection))) w in
      match drv_open d (trace w1) with
      | Some err => schedule (POpen connectionName op (inl err)) w1
      | None =>
          schedule (POpen connectionName op (inr (next_handle w1))) (fresh_handle w1)
      end
  end.

Definition collection_of (w : World) (connectionName collectionName : string)
  : option Collection :=
  match Js.get (connections w) connectionName with
  | Some connection => Js.get (collections connection) collectionName
  | None => None
  end.

(** *** The adapter's operations *)

Definition query (connectionName collectionName query : string)
    (data : option (list Js.value)) (w : World) : World :=
  start connectionName (OpQuery query data CbCaller) w.

Definition define (connectionName collectionName : string)
    (definition : Js.object AttributeSpec) (w : World) : World :=
  start connectionName
    (OpQuery (define_query collectionName definition) None CbDefine) w.

Definition describe (connectionName collectionName : string) (w : World) : World :=
  start connectionName (OpQuery (describe_query collectionName) None CbDescribe) w.

Definition drop (connectionName collectionName : string)
    (relations : list string) (w : World) : World :=
  start connectionName (OpDrop collectionName relations) w.

Definition find (connectionName collectionName : string) (options : Options)
    (w : World) : World :=
  start connectionName
    (OpFind (collection_of w connectionName collectionName) options) w.

Definition create (connectionName collectionName : string)
    (values : Js.object Js.value) (w : World) : World :=
  start connectionName
    (OpCreate (collection_of w connectionName collectionName) values) w.

Definition update (connectionName collectionName : string) (options : Options)
    (values : Js.object Js.value) (w : World) : World :=
  start connectionName
    (OpUpdate (collection_of w connectionName collectionName) options values) w.

Definition destroy (connectionName collectionName : string) (options : Options)
    (w : World) : World :=
  start connectionName
    (OpDestroy (collection_of w connectionName collectionName) options) w.

End Executor.

(** *** Registration and teardown *)

Inductive AdapterError : Type := IdentityMissing | IdentityDuplicate.

Definition registerConnection (connection : Config)
    (collections : Js.object Collection) (w : World) : option AdapterError * World :=
  match identity connection with
  | None => (Some IdentityMissing, w)
  | Some id =>
      if id =? "" then (Some IdentityMissing, w)
      else if Js.hasOwnProperty (connections w) id then (Some IdentityDuplicate, w)
      else (None,
            set_connections
              (Js.set (connections w) id
                 {| config := connection; collections := collections;
                    rc_pool := pool connection; conn := None |}) w)
  end.

(** [closeConnection(connectionName)]; an unregistered name is a TypeError. *)
Definition closeConnection (connectionName : string) (w : World) : World :=
  match Js.get (connections w) connectionName with
  | Some connection =>
      let w1 := match conn connection with
                | Some h => emit (EvClose h) w
                | None => w
                end in
      set_connections (Js.remove (connections w1) connectionName) w1
  | None => emit EvTypeError w
  end.

(** [teardown(connectionName, cb)] called with a name, which a registered
    connection has; the branch for a call without a name is left out. *)
Definition teardown (connectionName : string) (w : World) : World :=
  closeConnection connectionName w.

Definition empty_world : World :=
  {| connections := []; trace := []; next_handle := 0; queue := [] |}.

(** ** Sample registry and drivers, for the examples below *)

Module Sample.

Definition cfg : Config :=
  {| identity := Some "c"; database := "db"; host := "h"; user := "u";
     password := "p"; port := 50000; pool := false |}.

Definition attr (type : string) (pk ai : bool) : AttributeSpec :=
  {| attr_type := Some type; primaryKey := pk; autoIncrement := ai;
     unique := false; attr_length := None |}.

(** A collection with the columns id (identity key) and name. *)
Definition people : Collection :=
  {| tableName := "t";
     definition := [("id", attr "integer" true true);
                    ("name", attr "string" false false)] |}.

Definition registered : World :=
  snd (registerConnection cfg [("t", people)] empty_world).

Definition no_options : Options :=
  {| opt_where := []; opt_sort := []; opt_limit := Js.Undefined |}.

(** A driver that opens every handle and answers every statement with no
    rows. *)
Definition driver_ok : Driver :=
  {| drv_open := fun _ => None; drv_query := fun _ => inr [] |}.

Definition not_found : DriverError :=
  {| state := Some "42S02"; message := "table not found" |}.

Definition already_exists : DriverError :=
  {| state := Some "42S01"; message := "table already exists" |}.

Definition denied : DriverError :=
  {| state := Some "42501"; message := "not authorized" |}.

Definition connectionString : string :=
  "DRIVER={DB2};DATABASE=db;HOSTNAME=h;UID=u;PWD=p;PORT=50000;PROTOCOL=TCPIP".

Definition last_sql (t : list Event) : string :=
  match last t EvTypeError with
  | EvQuery _ sql _ => sql
  | _ => ""
  end.

(** A driver that answers the statement [sql] with [err] and every other
    statement with no rows. *)
Definition driver_failing (sql : string) (err : DriverError) : Driver :=
  {| drv_open := fun _ => None;
     drv_query := fun t => if last_sql t =? sql then inl err else inr [] |}.

(** A driver that opens every handle and answers every statement with
    [rows]. *)
Definition driver_rows (rows : list Row) : Driver :=
  {| drv_open := fun _ => None; drv_query := fun _ => inr rows |}.

(** A driver that refuses every handle with [err]. *)
Definition driver_refusing (err : DriverError) : Driver :=
  {| drv_open := fun _ => Some err; drv_query := fun _ => inr [] |}.

(** The entry that [registered] holds under the name c. *)
Definition entry : RegisteredConnection :=
  {| config := cfg; collections := [("t", people)]; rc_pool := false;
     conn := None |}.

(** A where or values map with a column called length. *)
Definition with_length : Js.object Js.value :=
  [("length", Js.Number "2"); ("name", Js.Str "x")].

(** A catalog row of one identity integer column. *)
Definition id_row : Row :=
  [("NAME", Js.Str "ID"); ("COLTYPE", Js.Str "INTEGER ");
   ("IDENTITY", Js.Str "Y"); ("KEYSEQ", Js.Number "1"); ("NULLS", Js.Str "N")].

End Sample.

(** ** Predicates on traces and on waiting callbacks *)

(** What an operation that works on the handle [h] may leave in the trace: a
    statement on [h], a call of the caller's callback or a TypeError; no
    handle is opened or closed. *)
Definition on_handle (h : Handle) (e : Event) : Prop :=
  match e with
  | EvQuery h' _ _ => h' = h
  | EvCb _ _ | EvTypeError => True
  | EvOpen _ _ | EvClose _ => False
  end.

(** A statement on [h] or a TypeError. *)
Definition first_on_handle (h : Handle) (e : Event) : Prop :=
  e = EvTypeError \/ exists sql params, e = EvQuery h sql params.

(** A callback of a statement of an operation on [connectionName]. *)
Definition pending_for (connectionName : string) (p : Pending) : Prop :=
  match p with
  | PQuery (K_next connectionName' _ _) _ => connectionName' = connectionName
  | PQuery _ _ => True
  | POpen _ _ _ => False
  end.

Definition turns_sum (q : list Pending) : nat :=
  fold_right (fun p n => turns_of p + n) 0 q.

(** [w'] is [w] with events added that satisfy [ok_ev] and callbacks added
    that satisfy [ok_p] and cause at most [budget] turns. *)
Definition extends (ok_ev : Event -> Prop) (ok_p : Pending -> Prop) (budget : nat)
    (w w' : World) : Prop :=
  (exists evs, trace w' = (trace w ++ evs)%list /\ Forall ok_ev evs)
  /\ (exists ps, queue w' = (queue w ++ ps)%list /\ Forall ok_p ps
                 /\ turns_sum ps <= budget)
  /\ connections w' = connections w
  /\ next_handle w' = next_handle w.

(** Every handle stored on a connection or about to be handed to an
    operationCallback is one the driver has already given out. *)
Definition handles_below (w : World) : Prop :=
  (forall connectionName connection h,
      Js.get (connections w) connectionName = Some connection ->
      conn connection = Some h -> h < next_handle w)
  /\ Forall (fun p => match p with
                      | POpen _ _ (inr h) => h < next_handle w
                      | _ => True
                      end) (queue w).

Definition is_query (p : Pending) : Prop :=
  match p with PQuery _ _ => True | POpen _ _ _ => False end.

(** A callback of a statement changes neither the registry nor the
    driver's next handle, and leaves only callbacks of statements. *)
Definition framed (w w' : World) : Prop :=
  connections w' = connections w
  /\ next_handle w' = next_handle w
  /\ exists ps, queue w' = (queue w ++ ps)%list /\ Forall is_query ps.

(** The worlds that registrations, operations, turns of the event loop and
    teardowns lead to. *)
Inductive reachable (d : Driver) : World -> Prop :=
| reach_empty : reachable d empty_world
| reach_register connection collections w :
    reachable d w -> reachable d (snd (registerConnection connection collections w))
| reach_start connectionName op w :
    reachable d w -> reachable d (start d connectionName op w)
| reach_step w : reachable d w -> reachable d (step d w)
| reach_teardown connectionName w :
    reachable d w -> reachable d (teardown connectionName w).

(** The error that a waiting callback is about to be given. *)
Definition pending_error (p : Pending) : option DriverError :=
  match p with
  | POpen _ _ (inl err) | PQuery _ (inl err) => Some err
  | _ => None
  end.

(** ** The rest of the adapter *)

(** [_fixDynamicallyGeneratedFindById(collections)], each collection being
    the object of its properties; [truthy] is the truth value of a
    property. *)
Definition _fixDynamicallyGeneratedFindById {A : Type} (truthy : A -> bool)
    (collections : Js.object (Js.object A)) : Js.object (Js.object A) :=
  fold_left (fun collections name =>
               match Js.get collections name with
               | Some collection =>
                   match Js.get collection "findOneByID" with
                   | Some f =>
                       if truthy f
                       then Js.set collections name (Js.set collection "findOneById" f)
                       else collections
                   | None => collections
                   end
               | None => collections
               end)
            (Js.keys collections) collections.

(** What the loop of [_fixDynamicallyGeneratedFindById] does to one
    collection. *)
Definition mirror_findOneByID {A : Type} (truthy : A -> bool)
    (collection : Js.object A) : Js.object A :=
  match Js.get collection "findOneByID" with
  | Some f => if truthy f then Js.set collection "findOneById" f else collection
  | None => collection
  end.

(** What [_.each(me.connections, closeConnection)] hands to closeConnection
    is the entry, not its name; used as a property name an entry reads
    "[object Object]", and undefined (an entry deleted meanwhile) reads
    "undefined". *)
Definition entry_as_name (entry : option RegisteredConnection) : string :=
  match entry with
  | Some _ => "[object Object]"
  | None => "undefined"
  end.

(** [_.each(me.connections, closeConnection)] over the names that the
    registry had when the loop began; a TypeError ends it. *)
Fixpoint closeEach (names : list string) (w : World) : World :=
  match names with
  | [] => w
  | name :: rest =>
      let connectionName := entry_as_name (Js.get (connections w) name) in
      match Js.get (connections w) connectionName with
      | Some _ => closeEach rest (closeConnection connectionName w)
      | None => emit EvTypeError w
      end
  end.

(** [teardown(connectionName, cb)] whole: [connectionName] is [None] when
    it is undefined or null; the empty string is falsy as well. *)
Definition teardownWith (connectionName : option string) (w : World) : World :=
  match connectionName with
  | Some name =>
      if name =? "" then closeEach (Js.keys (connections w)) w
      else closeConnection name w
  | None => closeEach (Js.keys (connections w)) w
  end.

(** *** Projections of a trace *)

Definition statement_of (e : Event) : list string :=
  match e with EvQuery _ sql _ => [sql] | _ => [] end.

Definition callback_of (e : Event) : list (option DriverError * Result) :=
  match e with EvCb err result => [(err, result)] | _ => [] end.

Definition close_of (e : Event) : list Handle :=
  match e with EvClose h => [h] | _ => [] end.

Definition open_of (e : Event) : list (bool * string) :=
  match e with EvOpen viaPool connectionString => [(viaPool, connectionString)] | _ => [] end.

(** The statements issued, the calls of the caller's callback, the handles
    closed and the open requests of a trace, in order. *)
Definition statements (t : list Event) : list string := flat_map statement_of t.
Definition callbacks (t : list Event) : list (option DriverError * Result) :=
  flat_map callback_of t.
Definition closes (t : list Event) : list Handle := flat_map close_of t.
Definition opens (t : list Event) : list (bool * string) := flat_map open_of t.

(** Whether a single quote occurs in a string. *)
Fixpoint has_quote (s : string) : bool :=
  match s with
  | EmptyString => false
  | String c rest => Ascii.eqb c "'"%char || has_quote rest
  end.

(** Whether a semicolon occurs in a string. *)
Fixpoint has_semicolon (s : string) : bool :=
  match s with
  | EmptyString => false
  | String c rest => Ascii.eqb c ";"%char || has_semicolon rest
  end.

(** The event that [passCallback] leaves for an answer of the driver. *)
Definition passCallback_event (answer : DriverError + list Row) : Event :=
  match answer with
  | inl err =>
      if state_is err "42S02" then EvCb None (RRows []) else EvCb (Some err) RNone
  | inr result => EvCb None (RRows result)
  end.

(** An event that neither asks for a handle nor closes one. *)
Definition not_open_close (e : Event) : Prop :=
  match e with
  | EvOpen _ _ | EvClose _ => False
  | EvQuery _ _ _ | EvCb _ _ | EvTypeError => True
  end.

(** [w'] is [w] with events added that satisfy [P]. *)
Definition adds (P : Event -> Prop) (w w' : World) : Prop :=
  exists evs, trace w' = (trace w ++ evs)%list /\ Forall P evs.

(** The event that a callback which hands the driver's answer over as it
    is leaves, and the one of the callbacks of [create] and [update]. *)
Definition answer_event (answer : DriverError + list Row) : Event :=
  match answer with
  | inl err => EvCb (Some err) RNone
  | inr rows => EvCb None (RRows rows)
  end.

Definition first_row_event (answer : DriverError + list Row) : Event :=
  match answer with
  | inl err => EvCb (Some err) RNone
  | inr results => EvCb None (RRow (hd_error results))
  end.

(** The event that the callback of [define] leaves for an answer of the
    driver, to the open request or to the CREATE TABLE statement. *)
Definition define_event (answer : DriverError + list Row) : Event :=
  match answer with
  | inl err =>
      if state_is err "42S01" then EvCb None (RRows []) else EvCb (Some err) RNone
  | inr result => EvCb None (RRows result)
  end.

(** The event that an operation leaves when the driver refuses its handle
    with [err]. *)
Definition refused_event (op : Op) (err : DriverError) : Event :=
  match op with
  | OpQuery _ _ CbDefine => define_event (inl err)
  | _ => EvCb (Some err) RNone
  end.

(** * Properties *)

(** ** Strings *)

Lemma append_assoc (a b c : string) : (a ++ b) ++ c = a ++ (b ++ c).
Proof.
  induction a as [|ch a IH]; simpl; [reflexivity | now rewrite IH].
Qed.

Lemma append_empty_r (a : string) : a ++ "" = a.
Proof.
  induction a as [|ch a IH]; simpl; [reflexivity | now rewrite IH].
Qed.

(** ** Lists built by the loops *)

Lemma where_bound_acc (definition : Js.object AttributeSpec)
    (where_ : Js.object Js.value) (whereData : list string) (params : list Js.value) :
  fold_left (fun '(whereData, params) '(column, param) =>
               if Js.hasOwnProperty definition column
               then ((whereData ++ [(column ++ " = ?")%string])%list,
                     (params ++ [param])%list)
               else (whereData, params))
            where_ (whereData, params)
  = let known := filter (fun e => Js.hasOwnProperty definition (fst e)) where_ in
    ((whereData ++ map (fun e => (fst e ++ " = ?")%string) known)%list,
     (params ++ map snd known)%list).
Proof.
  revert whereData params.
  induction where_ as [|[column param] rest IH]; intros whereData params; simpl.
  - now rewrite !app_nil_r.
  - destruct (Js.hasOwnProperty definition column); simpl.
    + rewrite IH. simpl. now rewrite <- !app_assoc.
    + apply IH.
Qed.

Lemma update_setData_acc (definition : Js.object AttributeSpec)
    (values : Js.object Js.value) (setData : list string) :
  fold_left (fun setData '(column, param) =>
               if Js.hasOwnProperty definition column && not_autoIncrement definition column
               then (setData ++ [(column ++ " = " ++ "'" ++ Js.toString param ++ "'")%string])%list
               else setData)
            values setData
  = (setData
     ++ map (fun e => (fst e ++ " = '" ++ Js.toString (snd e) ++ "'")%string)
            (filter (fun e => match Js.get definition (fst e) with
                              | Some attribute => negb (autoIncrement attribute)
                              | None => false
                              end) values))%list.
Proof.
  revert setData.
  induction values as [|[column param] rest IH]; intros setData; simpl.
  - now rewrite app_nil_r.
  - unfold Js.hasOwnProperty, not_autoIncrement.
    destruct (Js.get definition column) as [attribute|]; simpl.
    + destruct (autoIncrement attribute); simpl.
      * apply IH.
      * rewrite IH. now rewrite <- app_assoc.
    + apply IH.
Qed.

Lemma create_acc (definition : Js.object AttributeSpec)
    (values : Js.object Js.value) (columns questions : list string) :
  fold_left (fun '(columns, questions) '(column, param) =>
               if Js.hasOwnProperty definition column
               then ((columns ++ [column])%list,
                     (questions ++ [("'" ++ Js.toString param ++ "'")%string])%list)
               else (columns, questions))
            values (columns, questions)
  = let known := filter (fun e => Js.hasOwnProperty definition (fst e)) values in
    ((columns ++ map fst known)%list,
     (questions ++ map (fun e => ("'" ++ Js.toString (snd e) ++ "'")%string) known)%list).
Proof.
  revert columns questions.
  induction values as [|[column param] rest IH]; intros columns questions; simpl.
  - now rewrite !app_nil_r.
  - destruct (Js.hasOwnProperty definition column); simpl.
    + rewrite IH. simpl. now rewrite <- !app_assoc.
    + apply IH.
Qed.

Lemma define_schemaData_acc (definition : Js.object AttributeSpec)
    (schemaData : list string) :
  fold_left (fun schemaData '(attrName, attribute) =>
               (schemaData ++ [define_attrQuery attrName attribute])%list)
            definition schemaData
  = (schemaData ++ map (fun e => define_attrQuery (fst e) (snd e)) definition)%list.
Proof.
  revert schemaData.
  induction definition as [|[attrName attribute] rest IH]; intros schemaData; simpl.
  - now rewrite app_nil_r.
  - rewrite IH. now rewrite <- app_assoc.
Qed.

(** ** What [_.each] visits *)

Lemma each_own (o : Js.object Js.value) :
  Js.get o "length" = None -> Js._each o = o.
Proof.
  intros H. unfold Js._each. now rewrite H.
Qed.

Lemma each_array (o : Js.object Js.value) (v : Js.value) (n : N) :
  Js.get o "length" = Some v -> Js.isLength v = Some n ->
  Js._each o
  = map (fun i => (Js.string_of_N (N.of_nat i), Js.prop o (Js.string_of_N (N.of_nat i))))
        (seq 0 (N.to_nat n)).
Proof.
  intros H1 H2. unfold Js._each. now rewrite H1, H2.
Qed.

(** ** Type mapper *)

(** C7: each of the seven abstract kinds, mapped to its native type by
    [getSqlType] and back through [typeMap], is the kind itself; every
    native type of [typeMap] occurs once, so it has exactly one kind; and
    SMALLINT, INTEGER and BIGINT all map to integer. *)
Theorem C7_type_round_trip :
  Forall (fun kind => Js.get typeMap (getSqlType (Some kind)) = Some kind)
         abstract_kinds
  /\ NoDup (Js.keys typeMap)
  /\ Js.get typeMap "SMALLINT" = Some "integer"
  /\ Js.get typeMap "INTEGER" = Some "integer"
  /\ Js.get typeMap "BIGINT" = Some "integer".
Proof.
  split.
  - repeat constructor.
  - split.
    + unfold typeMap, Js.keys; simpl.
      repeat (constructor; [simpl; intros H; repeat (destruct H as [H|H]; [discriminate H|]); exact H|]).
      constructor.
    + repeat split.
Qed.

(** A type outside the seven kinds has no native type. *)
Lemma getSqlType_unknown (type : string) :
  ~ In type abstract_kinds -> getSqlType (Some type) = "".
Proof.
  intros Hnot. unfold getSqlType.
  repeat match goal with
         | |- context [String.eqb type ?k] =>
             destruct (String.eqb_spec type k) as [->|_];
             [exfalso; apply Hnot; simpl; tauto|]
         end.
  reflexivity.
Qed.

(** C10: an attribute that is no primary key and whose type is none of the
    seven kinds has the empty native type, its column clause in [define] is
    its name followed by one space, and that clause is among the columns of
    the CREATE TABLE statement. *)
Theorem C10_unknown_type_empty_clause
    (attrName : string) (attribute : AttributeSpec)
    (Hkey : primaryKey attribute = false)
    (Htype : forall type, attr_type attribute = Some type -> ~ In type abstract_kinds) :
  getSqlType (attr_type attribute) = ""
  /\ define_attrQuery attrName attribute = attrName ++ " "
  /\ define_query "t" [(attrName, attribute)] = "CREATE TABLE t (" ++ attrName ++ " )"
  /\ forall definition,
       In (attrName, attribute) definition ->
       In (attrName ++ " ") (define_schemaData definition).
Proof.
  assert (Hsql : getSqlType (attr_type attribute) = "").
  { destruct (attr_type attribute) as [type|] eqn:E; [|reflexivity].
    apply getSqlType_unknown. now apply Htype. }
  assert (Hclause : define_attrQuery attrName attribute = attrName ++ " ").
  { unfold define_attrQuery. rewrite Hkey, Hsql. reflexivity. }
  repeat split; try assumption.
  - unfold define_query, define_schemaData; simpl. rewrite Hclause.
    unfold Js.join; simpl.
    rewrite !append_assoc. reflexivity.
  - intros definition Hin. unfold define_schemaData.
    rewrite define_schemaData_acc; simpl.
    apply in_map_iff. exists (attrName, attribute). now split.
Qed.

Lemma C10_unknown_type_empty_clause_witness :
  getSqlType (Some "json") = ""
  /\ define_attrQuery "doc" (Sample.attr "json" false false) = "doc ".
Proof.
  destruct (C10_unknown_type_empty_clause "doc" (Sample.attr "json" false false))
    as (H1 & H2 & _).
  - reflexivity.
  - intros type H. injection H as <-. simpl. intros Hin.
    repeat (destruct Hin as [Hin|Hin]; [discriminate Hin|]). exact Hin.
  - split; assumption.
Defined.

(** ** Find *)

Lemma length_append (a b : string) :
  String.length (a ++ b) = String.length a + String.length b.
Proof.
  induction a as [|ch a IH]; simpl; [reflexivity | now rewrite IH].
Qed.

(** The WHERE clause is absent when no filter is kept and present
    otherwise. *)
Lemma whereQuery_of_cases (whereData : list string) :
  Forall (fun s => 0 < String.length s) whereData ->
  whereQuery_of whereData
  = match whereData with
    | [] => ""
    | _ :: _ => " WHERE " ++ Js.join " AND " whereData
    end.
Proof.
  intros Hall. unfold whereQuery_of. destruct whereData as [|s rest]; [reflexivity|].
  change ("" ++ Js.join " AND " (s :: rest)) with (Js.join " AND " (s :: rest)).
  assert (Hpos : 0 < String.length (Js.join " AND " (s :: rest))).
  { inversion Hall as [|? ? Hs _]; subst. unfold Js.join. simpl.
    destruct rest; [exact Hs|]. rewrite length_append. lia. }
  destruct (Nat.ltb_spec 0 (String.length (Js.join " AND " (s :: rest)))); [reflexivity | lia].
Qed.

(** C3: with a numeric limit the statement of [find] has no FETCH clause:
    it is the statement built without a limit; the clause is there for a
    limit given as a non-empty string, followed by one space. *)
Theorem C3_numeric_limit_has_no_fetch
    (collection : Collection) (where_ sort : Js.object Js.value) (n : string) :
  find_limitQuery {| opt_where := where_; opt_sort := sort; opt_limit := Js.Number n |} = ""
  /\ find_sql collection {| opt_where := where_; opt_sort := sort; opt_limit := Js.Number n |}
     = find_sql collection {| opt_where := where_; opt_sort := sort; opt_limit := Js.Undefined |}
  /\ fst (find_sql Sample.people
            {| opt_where := []; opt_sort := []; opt_limit := Js.Number "5" |})
     = "SELECT id,name FROM t"
  /\ fst (find_sql Sample.people
            {| opt_where := []; opt_sort := []; opt_limit := Js.Str "5" |})
     = "SELECT id,name FROM t FETCH FIRST 5 ROWS ONLY ".
Proof.
  repeat split.
Qed.

(** C6: without where, sort and limit the statement of [find] is
    [SELECT <columns> FROM <table>] with no parameter, its three optional
    clauses being empty.  The bound parameters are the values of the pairs
    that [_.each] takes from the where map and whose column is defined, in
    order, and the WHERE clause holds one [column = ?] for each of them.
    For a where map without a [length] property these pairs are its
    entries.  A where map with a numeric [length] is taken for an array:
    from where = {length: 2, name: 'x'} the loop is handed the columns 0
    and 1, so that on the columns id and name [find] binds nothing and
    writes no WHERE clause, though name is a column. *)
Theorem C6_find_where_loop (collection : Collection) :
  find_sql collection Sample.no_options
  = ("SELECT " ++ getSelectAttributes collection ++ " FROM " ++ tableName collection, [])
  /\ find_whereQuery collection Sample.no_options = ""
  /\ find_sortQuery collection Sample.no_options = ""
  /\ find_limitQuery Sample.no_options = ""
  /\ (forall options,
        let known := filter (fun e => Js.hasOwnProperty (definition collection) (fst e))
                            (Js._each (opt_where options)) in
        let whereClause :=
          match known with
          | [] => ""
          | _ :: _ => " WHERE " ++ Js.join " AND " (map (fun e => fst e ++ " = ?") known)
          end in
        snd (find_sql collection options) = map snd known
        /\ find_whereQuery collection options = whereClause
        /\ fst (find_sql collection options)
           = "SELECT " ++ getSelectAttributes collection ++ " FROM " ++ tableName collection
             ++ whereClause ++ find_sortQuery collection options ++ find_limitQuery options)
  /\ (forall options,
        Js.get (opt_where options) "length" = None ->
        snd (find_sql collection options)
        = map snd (filter (fun e => Js.hasOwnProperty (definition collection) (fst e))
                          (opt_where options)))
  /\ Js._each Sample.with_length = [("0", Js.Undefined); ("1", Js.Undefined)]
  /\ find_sql Sample.people
       {| opt_where := Sample.with_length; opt_sort := []; opt_limit := Js.Undefined |}
     = ("SELECT id,name FROM t", []).
Proof.
  assert (Hparams : forall options,
             snd (find_sql collection options)
             = map snd (filter (fun e => Js.hasOwnProperty (definition collection) (fst e))
                               (Js._each (opt_where options)))).
  { intros options. unfold find_sql, find_params, where_bound. simpl.
    rewrite where_bound_acc. reflexivity. }
  assert (Hwhere : forall options,
             let known := filter (fun e => Js.hasOwnProperty (definition collection) (fst e))
                                 (Js._each (opt_where options)) in
             find_whereQuery collection options
             = match known with
               | [] => ""
               | _ :: _ =>
                   " WHERE " ++ Js.join " AND " (map (fun e => fst e ++ " = ?") known)
               end).
  { intros options known. unfold find_whereQuery, where_bound.
    rewrite where_bound_acc. fold known. simpl.
    rewrite whereQuery_of_cases.
    + destruct known; reflexivity.
    + apply Forall_forall. intros s Hs. apply in_map_iff in Hs.
      destruct Hs as (e & <- & _). rewrite length_append. simpl. lia. }
  split; [|split; [|split; [|split; [|split; [|split; [|split]]]]]];
    try reflexivity.
  - unfold find_sql. cbn. rewrite !append_empty_r. reflexivity.
  - intros options known whereClause. split; [|split].
    + apply Hparams.
    + apply Hwhere.
    + unfold whereClause, known. rewrite <- (Hwhere options).
      unfold find_sql. cbv zeta. cbn [fst].
      change ("" ++ ?x) with x. now rewrite !append_assoc.
  - intros options Hlen. rewrite Hparams. now rewrite each_own.
Qed.

Lemma C6_find_where_loop_witness :
  snd (find_sql Sample.people
         {| opt_where := [("id", Js.Number "1"); ("ghost", Js.Number "2")];
            opt_sort := []; opt_limit := Js.Undefined |})
  = [Js.Number "1"].
Proof.
  exact (proj1 (proj2 (proj2 (proj2 (proj2 (proj2
           (C6_find_where_loop Sample.people))))))
           {| opt_where := [("id", Js.Number "1"); ("ghost", Js.Number "2")];
              opt_sort := []; opt_limit := Js.Undefined |} eq_refl).
Defined.

(** The example of the specification: columns id and name,
    where = {id: 1, ghost: 2}. *)
Example find_ghost_column :
  find_sql Sample.people
    {| opt_where := [("id", Js.Number "1"); ("ghost", Js.Number "2")];
       opt_sort := []; opt_limit := Js.Undefined |}
  = ("SELECT id,name FROM t WHERE id = ?", [Js.Number "1"]).
Proof. reflexivity. Qed.

(** ** Create and update *)

(** C4: [create] and [update] inline every value between two single quotes
    as it is: a quote inside the value is not doubled.  [escape], which
    [describe] applies to the table name, doubles the first quote only. *)
Theorem C4_quotes_not_doubled :
  (forall definition values,
      snd (create_columns_questions definition values)
      = map (fun e => "'" ++ Js.toString (snd e) ++ "'")
            (filter (fun e => Js.hasOwnProperty definition (fst e)) (Js._each values)))
  /\ create_sql Sample.people [("name", Js.Str "O'Brien")]
     = "SELECT id,name FROM FINAL TABLE (INSERT INTO t (name) VALUES ('O'Brien'))"
  /\ update_sql Sample.people Sample.no_options [("name", Js.Str "O'Brien")]
     = "SELECT id,name FROM FINAL TABLE (UPDATE t SET name = 'O'Brien')"
  /\ escape "O'Brien" = "'O''Brien'"
  /\ escape "a'b'c" = "'a''b'c'".
Proof.
  split; [|repeat split].
  intros definition values. unfold create_columns_questions.
  rewrite create_acc. reflexivity.
Qed.

(** C8: the SET list of [update] holds, in order, one [column = 'value'] for
    each pair that [_.each] takes from the values map and whose column is
    defined and not flagged autoIncrement, and nothing else: no column
    flagged autoIncrement is ever in it.  For a values map without a
    [length] property these pairs are its entries.  A values map with a
    numeric [length] is taken for an array: from values = {length: 2,
    name: 'x'} the loop is handed the columns 0 and 1, so that on the
    columns id and name the SET list is empty, though name is a column
    that is not flagged. *)
Theorem C8_update_set_loop
    (collection : Collection) (values : Js.object Js.value) :
  let keep := fun e : string * Js.value =>
                match Js.get (definition collection) (fst e) with
                | Some attribute => negb (autoIncrement attribute)
                | None => false
                end in
  let kept := filter keep (Js._each values) in
  update_setData (definition collection) values
  = map (fun e => fst e ++ " = '" ++ Js.toString (snd e) ++ "'") kept
  /\ update_setQuery collection values
     = " SET " ++ Js.join "," (map (fun e => fst e ++ " = '" ++ Js.toString (snd e) ++ "'") kept)
  /\ (forall options,
        update_sql collection options values
        = "SELECT " ++ getSelectAttributes collection ++ " FROM FINAL TABLE (UPDATE "
          ++ tableName collection ++ " SET "
          ++ Js.join "," (map (fun e => fst e ++ " = '" ++ Js.toString (snd e) ++ "'") kept)
          ++ whereQuery_of (update_whereData (definition collection) (opt_where options))
          ++ ")")
  /\ (forall column param,
        In (column, param) kept
        <-> In (column, param) (Js._each values)
            /\ exists attribute, Js.get (definition collection) column = Some attribute
                                 /\ autoIncrement attribute = false)
  /\ (Js.get values "length" = None -> kept = filter keep values)
  /\ update_setData (definition Sample.people) Sample.with_length = []
  /\ update_sql Sample.people Sample.no_options Sample.with_length
     = "SELECT id,name FROM FINAL TABLE (UPDATE t SET )".
Proof.
  intros keep kept.
  assert (Hset : update_setData (definition collection) values
                 = map (fun e => fst e ++ " = '" ++ Js.toString (snd e) ++ "'") kept).
  { unfold update_setData. rewrite update_setData_acc. reflexivity. }
  assert (Hquery : update_setQuery collection values
                   = " SET " ++ Js.join "," (map (fun e => fst e ++ " = '"
                                                   ++ Js.toString (snd e) ++ "'") kept)).
  { unfold update_setQuery. now rewrite Hset. }
  split; [exact Hset|]. split; [exact Hquery|]. split; [|split; [|repeat split]].
  - intros options. unfold update_sql. cbv zeta. rewrite Hquery.
    now rewrite ?append_assoc.
  - intros column param. unfold kept, keep. rewrite filter_In. simpl.
    split; intros [Hin H]; split; try exact Hin.
    + destruct (Js.get (definition collection) column) as [attribute|]; [|discriminate].
      exists attribute. split; [reflexivity|].
      now destruct (autoIncrement attribute).
    + destruct H as (attribute & -> & ->). reflexivity.
  - intros Hlen. unfold kept. now rewrite each_own.
Qed.

Lemma C8_update_set_loop_witness :
  update_setData (definition Sample.people)
    [("id", Js.Number "7"); ("name", Js.Str "Ann"); ("ghost", Js.Null)]
  = ["name = 'Ann'"].
Proof.
  pose proof (C8_update_set_loop Sample.people
                [("id", Js.Number "7"); ("name", Js.Str "Ann"); ("ghost", Js.Null)])
    as (Hset & _ & _ & _ & Hown & _).
  rewrite Hset, (Hown eq_refl). reflexivity.
Defined.

(** The identity column of the sample collection is left out. *)
Example update_skips_identity :
  update_sql Sample.people
    {| opt_where := [("id", Js.Number "1")]; opt_sort := []; opt_limit := Js.Undefined |}
    [("id", Js.Number "7"); ("name", Js.Str "Ann"); ("ghost", Js.Null)]
  = "SELECT id,name FROM FINAL TABLE (UPDATE t SET name = 'Ann' WHERE id = '1')".
Proof. reflexivity. Qed.

(** ** Describe *)

Lemma get_set {A} (o : Js.object A) (k k' : string) (v : A) :
  Js.get (Js.set o k v) k' = if String.eqb k k' then Some v else Js.get o k'.
Proof.
  induction o as [|[k0 v0] rest IH]; simpl.
  - reflexivity.
  - destruct (String.eqb_spec k0 k) as [->|Hne]; simpl.
    + destruct (String.eqb k k'); reflexivity.
    + rewrite IH. destruct (String.eqb_spec k0 k') as [->|Hne'].
      * destruct (String.eqb_spec k k'); [congruence | reflexivity].
      * reflexivity.
Qed.

Lemma strict_eq_Str (a : Js.value) (s : string) :
  Js.strict_eq a (Js.Str s) = true <-> a = Js.Str s.
Proof.
  unfold Js.strict_eq.
  destruct a; destruct (Js.value_eq_dec _ (Js.Str s)); split; congruence.
Qed.

Lemma strict_eq_zero (a : Js.value) :
  Js.strict_eq a (Js.Number "0") = true <-> a = Js.Number "0".
Proof.
  unfold Js.strict_eq.
  destruct a as [| |b|x|s];
    try (destruct (Js.value_eq_dec _ (Js.Number "0")); split; congruence).
  destruct (String.eqb_spec x "0") as [->|Hne]; simpl.
  - split; reflexivity.
  - split; [discriminate | congruence].
Qed.

(** No native type is called like an inherited property. *)
Lemma typeMap_kind_own (name : string) : typeMap_kind name = Js.get typeMap name.
Proof.
  unfold typeMap_kind, inherited_property.
  cbn [existsb].
  repeat match goal with
         | |- context [String.eqb name ?k] =>
             destruct (String.eqb_spec name k) as [->|_]; [reflexivity|]
         end.
  reflexivity.
Qed.

(** The flags of the attribute built from one catalog row. *)
Lemma describe_attribute_flags (attr : Row) (a : AttributeSpec) :
  describe_attribute attr = Some a ->
  exists coltype,
    field attr "COLTYPE" = Js.Str coltype
    /\ (forall kind, attr_type a = Some kind
                     <-> Js.get typeMap (Js.trim coltype) = Some kind)
    /\ (primaryKey a = true
        <-> field attr "IDENTITY" = Js.Str "Y"
            /\ field attr "KEYSEQ" <> Js.Number "0"
            /\ field attr "NULLS" = Js.Str "N"
            /\ Js.get typeMap (Js.trim coltype) = Some "integer")
    /\ autoIncrement a = primaryKey a
    /\ unique a = primaryKey a.
Proof.
  unfold describe_attribute.
  destruct (field attr "COLTYPE") as [| |b|z|coltype] eqn:Hcol; try discriminate.
  cbv zeta. rewrite typeMap_kind_own. intros H. exists coltype.
  remember (Js.get typeMap (Js.trim coltype)) as type eqn:Htype. clear Htype.
  injection H as <-.
  cbn [attr_type primaryKey autoIncrement unique].
  split; [reflexivity|]. split; [tauto|]. split; [|split; reflexivity].
  unfold is_identity_key. rewrite !andb_true_iff, negb_true_iff.
  split.
  - intros (((Hi & Hk) & Hn) & Ht). repeat split.
    + now apply strict_eq_Str.
    + intros Heq. apply strict_eq_zero in Heq. congruence.
    + now apply strict_eq_Str.
    + destruct type as [t|]; [|discriminate Ht].
      apply String.eqb_eq in Ht. now subst.
  - intros (Hi & Hk & Hn & Ht). rewrite Ht. repeat split.
    + now apply strict_eq_Str.
    + destruct (Js.strict_eq (field attr "KEYSEQ") (Js.Number "0")) eqn:E; [|reflexivity].
      apply strict_eq_zero in E. contradiction.
    + now apply strict_eq_Str.
Qed.

(** Every property of the map that [forEach] ends with was there before or
    was built from one of the rows. *)
Lemma describe_forEach_sound (attrs : list Row) :
  forall acc attributes name a,
    describe_forEach attrs acc = Some attributes ->
    Js.get attributes name = Some a ->
    Js.get acc name = Some a
    \/ exists attr, In attr attrs
                    /\ Js.toString (field attr "NAME") = name
                    /\ describe_attribute attr = Some a.
Proof.
  induction attrs as [|attr rest IH]; intros acc attributes name a Hrun Hget; simpl in Hrun.
  - injection Hrun as <-. now left.
  - destruct (describe_attribute attr) as [attribute|] eqn:Hattr; [|discriminate].
    destruct (IH _ _ _ _ Hrun Hget) as [Hacc | (attr' & Hin & Hname & Hdesc)].
    + destruct (Js.toString (field attr "NAME") =? "__proto__"); [now left|].
      rewrite get_set in Hacc.
      destruct (String.eqb_spec (Js.toString (field attr "NAME")) name) as [Heq|Hne].
      * right. exists attr. injection Hacc as <-. simpl. auto.
      * now left.
    + right. exists attr'. simpl. auto.
Qed.

Lemma describe_forEach_total (attrs : list Row) :
  Forall (fun attr => exists coltype, field attr "COLTYPE" = Js.Str coltype) attrs ->
  forall acc, exists attributes, describe_forEach attrs acc = Some attributes.
Proof.
  induction 1 as [|attr rest (coltype & Hcol) _ IH]; intros acc; simpl.
  - now exists acc.
  - unfold describe_attribute. rewrite Hcol. apply IH.
Qed.

(** The example of the specification: one identity integer column. *)
Example describe_identity_column :
  query_cb CbDescribe (inr [Sample.id_row]) empty_world
  = cb None (RAttributes
               [("ID", {| attr_type := Some "integer"; primaryKey := true;
                          autoIncrement := true; unique := true;
                          attr_length := None |})]) empty_world.
Proof. reflexivity. Qed.

(** ** The event loop *)

Section Loop.

Variable d : Driver.
Variables (ok_ev : Event -> Prop) (ok_p : Pending -> Prop).

Lemma turns_sum_app (a b : list Pending) :
  turns_sum (a ++ b) = turns_sum a + turns_sum b.
Proof.
  induction a as [|p a IH]; simpl; [reflexivity | rewrite IH; lia].
Qed.

Lemma turns_of_pos (p : Pending) : 1 <= turns_of p.
Proof.
  destruct p as [? [] ?|[] ?]; simpl; lia.
Qed.

Lemma extends_refl (w : World) : extends ok_ev ok_p 0 w w.
Proof.
  repeat split; exists []; rewrite app_nil_r; repeat split; auto.
Qed.

Lemma extends_trans (b1 b2 : nat) (w1 w2 w3 : World) :
  extends ok_ev ok_p b1 w1 w2 -> extends ok_ev ok_p b2 w2 w3 ->
  extends ok_ev ok_p (b1 + b2) w1 w3.
Proof.
  intros ((e1 & He1 & Hok1) & (p1 & Hp1 & Hokp1 & Hb1) & Hc1 & Hn1)
         ((e2 & He2 & Hok2) & (p2 & Hp2 & Hokp2 & Hb2) & Hc2 & Hn2).
  repeat split; try congruence.
  - exists (e1 ++ e2)%list. rewrite He2, He1, app_assoc.
    split; [reflexivity | now apply Forall_app].
  - exists (p1 ++ p2)%list. rewrite Hp2, Hp1, app_assoc.
    repeat split; [now apply Forall_app | rewrite turns_sum_app; lia].
Qed.

Lemma extends_weaken (b b' : nat) (w w' : World) :
  b <= b' -> extends ok_ev ok_p b w w' -> extends ok_ev ok_p b' w w'.
Proof.
  intros Hle (He & (ps & Hp & Hok & Hb) & Hc & Hn).
  repeat split; auto. exists ps. repeat split; auto. lia.
Qed.

Lemma extends_emit (e : Event) (w : World) :
  ok_ev e -> extends ok_ev ok_p 0 w (emit e w).
Proof.
  intros He. repeat split; simpl.
  - exists [e]. auto.
  - exists []. rewrite app_nil_r. auto.
Qed.

Lemma extends_conn_query (h : Handle) (sql : string)
    (params : option (list Js.value)) (k : Kont) (w : World) :
  ok_ev (EvQuery h sql params) ->
  (forall answer, ok_p (PQuery k answer)) ->
  extends ok_ev ok_p (turns_of (PQuery k (inr []))) w (conn_query d h sql params k w).
Proof.
  intros He Hp. repeat split; simpl.
  - exists [EvQuery h sql params]. auto.
  - eexists [_]. repeat split; [auto|].
    simpl. destruct k; simpl; lia.
Qed.

End Loop.

Section OneConnection.

Variable d : Driver.
Variable connectionName : string.
Variable h : Handle.

Local Abbreviation ext := (extends (on_handle h) (pending_for connectionName)).

Lemma handle_of_extends (b : nat) (w w' : World) :
  ext b w w' -> handle_of w' connectionName = handle_of w connectionName.
Proof.
  intros (_ & _ & Hc & _). unfold handle_of. now rewrite Hc.
Qed.

Lemma dropTable_extends (tableName : string) (next : Kont) (w : World) :
  handle_of w connectionName = Some h ->
  (forall answer, pending_for connectionName (PQuery next answer)) ->
  ext (turns_of (PQuery next (inr []))) w (dropTable d connectionName tableName next w).
Proof.
  intros Hh Hp. unfold dropTable. rewrite Hh.
  apply extends_conn_query; simpl; auto.
Qed.

Lemma eachSeries_extends (collectionName : string) (relations : list string)
    (w : World) :
  handle_of w connectionName = Some h ->
  ext (1 + List.length relations) w
      (eachSeries d connectionName collectionName relations w).
Proof.
  intros Hh. destruct relations as [|tableName rest]; simpl eachSeries.
  - apply dropTable_extends; simpl; auto.
  - eapply extends_weaken; [|apply dropTable_extends; simpl; auto].
    simpl. lia.
Qed.

Lemma cb_extends (err : option DriverError) (result : Result) (b : nat) (w : World) :
  ext b w (cb err result w).
Proof.
  eapply extends_weaken; [|apply extends_emit; exact I]. lia.
Qed.

Lemma typeError_extends (b : nat) (w : World) : ext b w (emit EvTypeError w).
Proof.
  eapply extends_weaken; [|apply extends_emit; exact I]. lia.
Qed.

(** A callback of a statement leaves statements on [h] and calls of the
    caller's callback only. *)
Lemma run_kont_extends (k : Kont) (answer : DriverError + list Row) (w : World) :
  handle_of w connectionName = Some h ->
  pending_for connectionName (PQuery k answer) ->
  ext (turns_of (PQuery k answer) - 1) w (run_kont d k answer w).
Proof.
  intros Hh Hp. destruct k as [qcb|cn col rest| | |]; simpl run_kont.
  - destruct qcb, answer as [err|rows]; simpl query_cb;
      try apply cb_extends.
    + destruct (negb (state_is err "42S01")); apply cb_extends.
    + destruct (Nat.eqb (List.length rows) 0); [apply cb_extends|].
      destruct (describe_forEach rows []); [apply cb_extends | apply typeError_extends].
  - simpl in Hp. subst cn. destruct answer as [err|rows]; [apply cb_extends|].
    eapply extends_weaken; [|apply eachSeries_extends; exact Hh].
    simpl. lia.
  - unfold passCallback. destruct answer as [err|rows]; [|apply cb_extends].
    destruct (negb (state_is err "42S02")); apply cb_extends.
  - destruct answer; apply cb_extends.
  - destruct answer; apply cb_extends.
Qed.

(** The body of an operation, once the handle [h] is stored. *)
Lemma run_op_extends (op : Op) (w : World) :
  handle_of w connectionName = Some h ->
  ext (turns_of (POpen connectionName op (inr h)) - 1) w
      (run_op d connectionName op w).
Proof.
  intros Hh. destruct op as [query data qcb|col relations|c o|c v|c o v|c o];
    simpl run_op.
  - unfold __QUERY__. rewrite Hh.
    eapply extends_weaken; [|apply extends_conn_query; simpl; auto]. simpl; lia.
  - unfold __DROP__. rewrite Hh.
    eapply extends_weaken;
      [|eapply extends_trans;
        [apply eachSeries_extends; exact Hh
        |apply extends_conn_query; simpl; auto]].
    simpl. lia.
  - unfold __FIND__. destruct c as [c|]; [|apply typeError_extends].
    rewrite Hh. destruct (find_sql c o) as [sql params].
    eapply extends_weaken; [|apply extends_conn_query; simpl; auto]. simpl; lia.
  - unfold __CREATE__. destruct c as [c|]; [|apply typeError_extends].
    rewrite Hh.
    eapply extends_weaken; [|apply extends_conn_query; simpl; auto]. simpl; lia.
  - unfold __UPDATE__. destruct c as [c|]; [|apply typeError_extends].
    rewrite Hh.
    eapply extends_weaken; [|apply extends_conn_query; simpl; auto]. simpl; lia.
  - unfold __DESTROY__. destruct c as [c|]; [|apply typeError_extends].
    rewrite Hh. destruct (destroy_sql c o) as [sql params].
    eapply extends_weaken; [|apply extends_conn_query; simpl; auto]. simpl; lia.
Qed.

End OneConnection.

Section Settling.

Variable d : Driver.
Variable connectionName : string.
Variable h : Handle.

(** The first thing an operation does with its handle is to issue a
    statement on it, unless its collection is unknown. *)
Lemma run_op_first (op : Op) (w : World) :
  handle_of w connectionName = Some h ->
  exists e evs,
    trace (run_op d connectionName op w) = (trace w ++ e :: evs)%list
    /\ first_on_handle h e.
Proof.
  intros Hh. unfold first_on_handle.
  destruct op as [query data qcb|col relations|c o|c v|c o v|c o]; simpl run_op.
  - unfold __QUERY__. rewrite Hh. simpl. eauto 7.
  - unfold __DROP__. rewrite Hh.
    destruct relations as [|tableName rest]; simpl eachSeries;
      unfold dropTable; rewrite Hh; simpl; rewrite <- app_assoc; simpl; eauto 7.
  - unfold __FIND__. destruct c as [c|]; [|simpl; eauto 7].
    rewrite Hh. destruct (find_sql c o). simpl. eauto 7.
  - unfold __CREATE__. destruct c as [c|]; [|simpl; eauto 7].
    rewrite Hh. simpl. eauto 7.
  - unfold __UPDATE__. destruct c as [c|]; [|simpl; eauto 7].
    rewrite Hh. simpl. eauto 7.
  - unfold __DESTROY__. destruct c as [c|]; [|simpl; eauto 7].
    rewrite Hh. destruct (destroy_sql c o). simpl. eauto 7.
Qed.

(** Once only callbacks of statements on [connectionName] wait, the loop
    comes to rest within the turns counted, having added only statements
    on the stored handle and calls of the caller's callback. *)
Lemma run_settles (n : nat) :
  forall w,
    handle_of w connectionName = Some h ->
    Forall (pending_for connectionName) (queue w) ->
    turns_sum (queue w) <= n ->
    queue (run d n w) = []
    /\ (exists evs, trace (run d n w) = (trace w ++ evs)%list
                    /\ Forall (on_handle h) evs)
    /\ connections (run d n w) = connections w
    /\ next_handle (run d n w) = next_handle w.
Proof.
  induction n as [|n IH]; intros w Hh Hq Hn.
  - simpl. repeat split.
    + destruct (queue w) as [|p rest]; [reflexivity|].
      change (turns_of p + turns_sum rest <= 0) in Hn.
      pose proof (turns_of_pos p). lia.
    + exists []. now rewrite app_nil_r.
  - simpl run. unfold step.
    destruct (queue w) as [|p rest] eqn:Hqueue.
    + apply IH; rewrite ?Hqueue; simpl; auto; lia.
    + inversion Hq as [|? ? Hp Hrest]; subst.
      destruct p as [cn op answer|k answer]; [contradiction|].
      simpl run_pending.
      assert (Hh0 : handle_of (set_queue rest w) connectionName = Some h) by exact Hh.
      pose proof (run_kont_extends d connectionName h k answer _ Hh0 Hp)
        as ((evs1 & Ht1 & Hok1) & (ps & Hq1 & Hokp & Hb) & Hc1 & Hn1).
      simpl in Ht1, Hq1, Hc1, Hn1.
      destruct (IH (run_kont d k answer (set_queue rest w)))
        as (Hempty & (evs2 & Ht2 & Hok2) & Hc2 & Hn2).
      * unfold handle_of. rewrite Hc1. exact Hh.
      * rewrite Hq1. apply Forall_app. auto.
      * rewrite Hq1, turns_sum_app.
        change (turns_of (PQuery k answer) + turns_sum rest <= S n) in Hn.
        pose proof (turns_of_pos (PQuery k answer)). lia.
      * repeat split; try congruence.
        exists (evs1 ++ evs2)%list. rewrite Ht2, Ht1, app_assoc.
        split; [reflexivity | now apply Forall_app].
Qed.

End Settling.

Lemma handle_of_set_conn (connectionName : string) (h : Handle) (w : World)
    (connection : RegisteredConnection) :
  Js.get (connections w) connectionName = Some connection ->
  handle_of (set_conn connectionName h w) connectionName = Some h.
Proof.
  intros Hreg. unfold set_conn, handle_of. rewrite Hreg. simpl.
  rewrite get_set, String.eqb_refl. reflexivity.
Qed.

Lemma run_S (d : Driver) (n : nat) (w : World) (p : Pending) (rest : list Pending) :
  queue w = p :: rest ->
  run d (S n) w = run d n (run_pending d p (set_queue rest w)).
Proof.
  intros Hq. simpl. unfold step. now rewrite Hq.
Qed.

(** With a driver that opens the handle, [start] leaves the open request
    in the trace and the operationCallback waiting with the next handle. *)
Lemma start_opens (d : Driver) (w : World) (connectionName : string)
    (connection : RegisteredConnection) (op : Op) :
  Js.get (connections w) connectionName = Some connection ->
  drv_open d (trace w ++ [EvOpen (rc_pool connection)
                                 (getConnectionString (config connection))])%list
  = None ->
  start d connectionName op w
  = schedule (POpen connectionName op (inr (next_handle w)))
      (fresh_handle
         (emit (EvOpen (rc_pool connection) (getConnectionString (config connection))) w)).
Proof.
  intros Hreg Hopen. unfold start. rewrite Hreg. cbv zeta.
  change (trace (emit ?e w)) with (trace w ++ [e])%list.
  rewrite Hopen. reflexivity.
Qed.

(** From a world at rest, the first turn after [start] runs the
    operationCallback with the new handle; the turns counted for the
    operation are left for its statements. *)
Lemma settle_start (d : Driver) (w : World) (connectionName : string)
    (connection : RegisteredConnection) (op : Op) :
  queue w = [] ->
  Js.get (connections w) connectionName = Some connection ->
  drv_open d (trace w ++ [EvOpen (rc_pool connection)
                                 (getConnectionString (config connection))])%list
  = None ->
  let ev := EvOpen (rc_pool connection) (getConnectionString (config connection)) in
  let p := POpen connectionName op (inr (next_handle w)) in
  settle d (start d connectionName op w)
  = run d (turns_of p - 1)
      (run_op d connectionName op
         (set_conn connectionName (next_handle w)
            (set_queue [] (schedule p (fresh_handle (emit ev w)))))).
Proof.
  intros Hquiet Hreg Hopen ev p.
  rewrite (start_opens d w connectionName connection op Hreg Hopen).
  fold ev p. unfold settle, turns_left.
  change (queue (schedule p (fresh_handle (emit ev w)))) with (queue w ++ [p])%list.
  rewrite Hquiet.
  change (fold_right (fun p0 n0 => turns_of p0 + n0) 0 ([] ++ [p])%list)
    with (turns_of p + 0).
  replace (turns_of p + 0) with (S (turns_of p - 1))
    by (pose proof (turns_of_pos p); lia).
  rewrite (run_S d (turns_of p - 1) _ p []); [reflexivity|].
  simpl. now rewrite Hquiet.
Qed.

(** ** Handles are given out once *)

Lemma get_remove {A} (o : Js.object A) (k k' : string) (v : A) :
  Js.get (Js.remove o k) k' = Some v -> Js.get o k' = Some v.
Proof.
  induction o as [|[k0 v0] rest IH]; simpl; [auto|].
  destruct (String.eqb_spec k0 k) as [->|Hne]; simpl.
  - intros H. specialize (IH H).
    destruct (String.eqb_spec k k') as [->|_]; [|exact IH].
    clear -H. exfalso. induction rest as [|[k1 v1] rest IH]; simpl in H; [discriminate|].
    destruct (String.eqb_spec k1 k') as [->|Hne]; simpl in H.
    + auto.
    + destruct (String.eqb_spec k1 k'); [contradiction | auto].
  - destruct (String.eqb k0 k'); auto.
Qed.

(** A refused handle: the operationCallback leaves one event. *)
Lemma operationCallback_refused (d : Driver) (connectionName : string) (op : Op)
    (err : DriverError) (w : World) :
  operationCallback d connectionName op (inl err) w = emit (refused_event op err) w.
Proof.
  destruct op as [query data []| | | | |]; try reflexivity.
  simpl. unfold define_event. destruct (state_is err "42S01"); reflexivity.
Qed.

Section Frame.

Variable d : Driver.

Lemma framed_emit (e : Event) (w : World) : framed w (emit e w).
Proof.
  repeat split. exists []. now rewrite app_nil_r.
Qed.

Lemma framed_conn_query (h : Handle) (sql : string) (params : option (list Js.value))
    (k : Kont) (w : World) :
  framed w (conn_query d h sql params k w).
Proof.
  repeat split. eexists [_]. split; [reflexivity|]. repeat constructor.
Qed.

Lemma framed_trans (w1 w2 w3 : World) : framed w1 w2 -> framed w2 w3 -> framed w1 w3.
Proof.
  intros (Hc1 & Hn1 & ps1 & Hq1 & Hok1) (Hc2 & Hn2 & ps2 & Hq2 & Hok2).
  repeat split; try congruence.
  exists (ps1 ++ ps2)%list. rewrite Hq2, Hq1, app_assoc.
  split; [reflexivity | now apply Forall_app].
Qed.

Lemma framed_dropTable (connectionName tableName : string) (next : Kont) (w : World) :
  framed w (dropTable d connectionName tableName next w).
Proof.
  unfold dropTable. destruct (handle_of w connectionName);
    [apply framed_conn_query | apply framed_emit].
Qed.

Lemma framed_eachSeries (connectionName collectionName : string)
    (relations : list string) (w : World) :
  framed w (eachSeries d connectionName collectionName relations w).
Proof.
  destruct relations; apply framed_dropTable.
Qed.

Lemma framed_run_kont (k : Kont) (answer : DriverError + list Row) (w : World) :
  framed w (run_kont d k answer w).
Proof.
  destruct k as [qcb|cn col rest| | |]; simpl run_kont.
  - destruct qcb, answer as [err|rows]; simpl query_cb; try apply framed_emit.
    + destruct (negb (state_is err "42S01")); apply framed_emit.
    + destruct (Nat.eqb (List.length rows) 0); [apply framed_emit|].
      destruct (describe_forEach rows []); apply framed_emit.
  - destruct answer; [apply framed_emit | apply framed_eachSeries].
  - unfold passCallback. destruct answer as [err|rows]; [|apply framed_emit].
    destruct (negb (state_is err "42S02")); apply framed_emit.
  - destruct answer; apply framed_emit.
  - destruct answer; apply framed_emit.
Qed.

Lemma framed_run_op (connectionName : string) (op : Op) (w : World) :
  framed w (run_op d connectionName op w).
Proof.
  destruct op as [query data qcb|col relations|c o|c v|c o v|c o]; simpl run_op.
  - unfold __QUERY__. destruct (handle_of w connectionName);
      [apply framed_conn_query | apply framed_emit].
  - unfold __DROP__. destruct (handle_of w connectionName); [|apply framed_emit].
    eapply framed_trans; [apply framed_eachSeries | apply framed_conn_query].
  - unfold __FIND__. destruct c as [c|], (handle_of w connectionName);
      try apply framed_emit.
    destruct (find_sql c o). apply framed_conn_query.
  - unfold __CREATE__. destruct c as [c|], (handle_of w connectionName);
      try apply framed_emit. apply framed_conn_query.
  - unfold __UPDATE__. destruct c as [c|], (handle_of w connectionName);
      try apply framed_emit. apply framed_conn_query.
  - unfold __DESTROY__. destruct c as [c|], (handle_of w connectionName);
      try apply framed_emit.
    destruct (destroy_sql c o). apply framed_conn_query.
Qed.

Lemma handles_below_framed (w w' : World) (q : list Pending) :
  handles_below (set_queue q w) -> framed (set_queue q w) w' -> handles_below w'.
Proof.
  intros (Hc & Hq) (Hc' & Hn' & ps & Hq' & Hok). split.
  - intros cn c h. rewrite Hc', Hn'. exact (Hc cn c h).
  - rewrite Hq'. apply Forall_app. split.
    + rewrite Hn'. exact Hq.
    + eapply Forall_impl; [|exact Hok]. intros [] H; [contradiction | exact I].
Qed.

Lemma handles_below_step (w : World) : handles_below w -> handles_below (step d w).
Proof.
  intros Hw. unfold step. destruct (queue w) as [|p rest] eqn:Hqueue; [exact Hw|].
  destruct Hw as (Hc & Hq). rewrite Hqueue in Hq.
  inversion Hq as [|? ? Hp Hrest]; subst.
  assert (Hrestw : handles_below (set_queue rest w)) by (split; assumption).
  destruct p as [cn op [err|h]|k answer]; cbn [run_pending].
  - rewrite operationCallback_refused.
    eapply handles_below_framed; [exact Hrestw | apply framed_emit].
  - unfold operationCallback.
    assert (Hset : handles_below (set_conn cn h (set_queue rest w))).
    { unfold set_conn. simpl.
      destruct (Js.get (connections w) cn) as [c|] eqn:Hget; [|exact Hrestw].
      split; [|exact Hrest]. simpl. intros cn' c' h'. rewrite get_set.
      destruct (String.eqb cn cn').
      - intros H. injection H as <-. simpl. intros H. injection H as <-. exact Hp.
      - apply Hc. }
    destruct Hset as (Hc2 & Hq2).
    pose proof (framed_run_op cn op (set_conn cn h (set_queue rest w)))
      as (Hc' & Hn' & ps & Hq' & Hok).
    split.
    + intros cn' c' h'. rewrite Hc', Hn'. exact (Hc2 cn' c' h').
    + rewrite Hq'. apply Forall_app. split.
      * rewrite Hn'. exact Hq2.
      * eapply Forall_impl; [|exact Hok]. intros [] H; [contradiction | exact I].
  - eapply handles_below_framed; [exact Hrestw | apply framed_run_kont].
Qed.

Lemma handles_below_start (connectionName : string) (op : Op) (w : World) :
  handles_below w -> handles_below (start d connectionName op w).
Proof.
  intros (Hc & Hq). unfold start.
  destruct (Js.get (connections w) connectionName) as [c|]; [|split; assumption].
  cbv zeta. destruct (drv_open d _); split; simpl.
  - exact Hc.
  - apply Forall_app. split; [exact Hq | repeat constructor].
  - intros cn c' h' H1 H2. specialize (Hc cn c' h' H1 H2). lia.
  - apply Forall_app. split.
    + eapply Forall_impl; [|exact Hq]. intros [? ? [|]|]; simpl; auto; lia.
    + repeat constructor.
Qed.

(** In every reachable world the stored handles are below the driver's next
    handle. *)
Lemma reachable_handles_below (w : World) : reachable d w -> handles_below w.
Proof.
  induction 1 as [|connection collections w _ IH|cn op w _ IH|w _ IH|cn w _ IH].
  - split; [discriminate | constructor].
  - destruct IH as (Hc & Hq). unfold registerConnection.
    destruct (identity connection) as [id|]; [|split; assumption].
    destruct (String.eqb id ""); [split; assumption|].
    destruct (Js.hasOwnProperty (connections w) id); [split; assumption|].
    split; [|exact Hq]. simpl. intros cn c h. rewrite get_set.
    destruct (String.eqb id cn); [|apply Hc].
    intros H. injection H as <-. discriminate.
  - now apply handles_below_start.
  - now apply handles_below_step.
  - destruct IH as (Hc & Hq). unfold teardown, closeConnection.
    destruct (Js.get (connections w) cn) as [c|]; [|split; assumption].
    destruct (conn c); split; simpl; try exact Hq;
      intros cn' c' h' H H2; apply get_remove in H; exact (Hc cn' c' h' H H2).
Qed.

End Frame.

(** ** Connection handles *)


(** Two operations in flight: [find] is called before the callbacks of
    [drop] have run.  The DROP TABLE that the series of [drop] issues in a
    later turn goes on the handle stored last, which is the one opened for
    [find]. *)
Example operations_in_flight :
  let w1 := drop Sample.driver_ok "c" "t" ["r1"] Sample.registered in
  let w2 := find Sample.driver_ok "c" "t" Sample.no_options w1 in
  trace (settle Sample.driver_ok w2)
  = [EvOpen false Sample.connectionString;
     EvOpen false Sample.connectionString;
     EvQuery 0 "DROP TABLE r1" None;
     EvQuery 0 "DROP TABLE t" (Some [Js.Str "r1"]);
     EvQuery 1 "SELECT id,name FROM t" (Some []);
     EvQuery 1 "DROP TABLE t" None;
     EvCb None (RRows []);
     EvCb None (RRows []);
     EvCb None (RRows [])].
Proof. reflexivity. Qed.

(** ** Drop *)

(** X20: Whatever the relations and the driver, [__DROP__] issues the DROP TABLE
    of the target collection, with the relations as parameters, right after
    the first statement of the series. *)
Lemma DROP_issues_target_at_once (d : Driver) (connectionName collectionName : string)
    (relations : list string) (w : World) (h : Handle) :
  handle_of w connectionName = Some h ->
  trace (__DROP__ d connectionName collectionName relations w)
  = (trace w
     ++ [EvQuery h (drop_query (hd collectionName relations)) None;
         EvQuery h (drop_query collectionName) (Some (map Js.Str relations))])%list.
Proof.
  intros Hh. unfold __DROP__. rewrite Hh.
  destruct relations as [|tableName rest]; simpl eachSeries;
    unfold dropTable; rewrite Hh; simpl; now rewrite <- app_assoc.
Qed.

(** C2: [drop] with the relations r1 and r2 issues the DROP TABLE of the
    target twice, the first time before r2 is dropped, and calls the caller
    twice; when the drop of r1 fails the target's DROP TABLE has been issued
    all the same.  No callback waits at the end of either run. *)
Theorem C2_drop_issues_target_twice :
  trace (settle Sample.driver_ok
           (drop Sample.driver_ok "c" "t" ["r1"; "r2"] Sample.registered))
  = [EvOpen false Sample.connectionString;
     EvQuery 0 "DROP TABLE r1" None;
     EvQuery 0 "DROP TABLE t" (Some [Js.Str "r1"; Js.Str "r2"]);
     EvQuery 0 "DROP TABLE r2" None;
     EvCb None (RRows []);
     EvQuery 0 "DROP TABLE t" None;
     EvCb None (RRows [])]
  /\ trace (settle (Sample.driver_failing "DROP TABLE r1" Sample.denied)
              (drop (Sample.driver_failing "DROP TABLE r1" Sample.denied)
                    "c" "t" ["r1"; "r2"] Sample.registered))
     = [EvOpen false Sample.connectionString;
        EvQuery 0 "DROP TABLE r1" None;
        EvQuery 0 "DROP TABLE t" (Some [Js.Str "r1"; Js.Str "r2"]);
        EvCb (Some Sample.denied) RNone;
        EvCb None (RRows [])]
  /\ queue (settle Sample.driver_ok
              (drop Sample.driver_ok "c" "t" ["r1"; "r2"] Sample.registered)) = []
  /\ queue (settle (Sample.driver_failing "DROP TABLE r1" Sample.denied)
              (drop (Sample.driver_failing "DROP TABLE r1" Sample.denied)
                    "c" "t" ["r1"; "r2"] Sample.registered)) = [].
Proof.
  repeat split; reflexivity.
Qed.

(** ** Driver errors *)


(** X6: What [define] leaves in the trace, from a world at rest and with a
    driver that opens the handle: the open request, the CREATE TABLE
    statement on the new handle and one call of the caller's callback. *)
Lemma define_trace (d : Driver) (w : World) (connectionName : string)
    (connection : RegisteredConnection) (collectionName : string)
    (definition : Js.object AttributeSpec) :
  queue w = [] ->
  Js.get (connections w) connectionName = Some connection ->
  drv_open d (trace w ++ [EvOpen (rc_pool connection)
                                 (getConnectionString (config connection))])%list
  = None ->
  let ev := EvOpen (rc_pool connection) (getConnectionString (config connection)) in
  let q := EvQuery (next_handle w) (define_query collectionName definition) None in
  trace (settle d (define d connectionName collectionName definition w))
  = (trace w
     ++ [ev; q;
         match drv_query d (trace w ++ [ev; q])%list with
         | inl err =>
             if state_is err "42S01" then EvCb None (RRows []) else EvCb (Some err) RNone
         | inr result => EvCb None (RRows result)
         end])%list.
Proof.
  intros Hquiet Hreg Hopen ev q. unfold define.
  rewrite (settle_start d w connectionName connection _ Hquiet Hreg Hopen).
  cbv zeta. fold ev.
  set (w2 := set_conn connectionName (next_handle w) _).
  assert (Hh2 : handle_of w2 connectionName = Some (next_handle w)).
  { unfold w2. eapply handle_of_set_conn. simpl. exact Hreg. }
  assert (Ht2 : trace w2 = (trace w ++ [ev])%list).
  { unfold w2, set_conn. simpl. rewrite Hreg. reflexivity. }
  assert (Hq2 : queue w2 = []).
  { unfold w2, set_conn. simpl. rewrite Hreg. reflexivity. }
  change (turns_of (POpen connectionName
                      (OpQuery (define_query collectionName definition) None CbDefine)
                      (inr (next_handle w))) - 1) with 1.
  simpl run_op. unfold __QUERY__. rewrite Hh2. fold q.
  rewrite (run_S d 0 _ (PQuery (K_query_callback CbDefine)
                          (drv_query d (trace w2 ++ [q])%list)) []).
  2: { simpl. rewrite Hq2. reflexivity. }
  simpl run. simpl run_pending. rewrite Ht2.
  replace ((trace w ++ [ev]) ++ [q])%list with (trace w ++ [ev; q])%list
    by (now rewrite <- app_assoc).
  destruct (drv_query d (trace w ++ [ev; q])%list) as [err|result]; simpl.
  - destruct (state_is err "42S01"); simpl; rewrite Ht2, <- !app_assoc; reflexivity.
  - rewrite Ht2, <- !app_assoc. reflexivity.
Qed.

(** [define] on a table that exists, and [drop] on a table that does not. *)
Example define_existing_table :
  let d := Sample.driver_failing
             (define_query "t" (definition Sample.people)) Sample.already_exists in
  trace (settle d (define d "c" "t" (definition Sample.people) Sample.registered))
  = [EvOpen false Sample.connectionString;
     EvQuery 0
       "CREATE TABLE t (id INTEGER GENERATED ALWAYS AS IDENTITY PRIMARY KEY,name VARCHAR(255))"
       None;
     EvCb None (RRows [])].
Proof. reflexivity. Qed.

Example drop_missing_table :
  let d := Sample.driver_failing "DROP TABLE t" Sample.not_found in
  trace (settle d (drop d "c" "t" [] Sample.registered))
  = [EvOpen false Sample.connectionString;
     EvQuery 0 "DROP TABLE t" None;
     EvQuery 0 "DROP TABLE t" (Some []);
     EvCb None (RRows []);
     EvCb None (RRows [])].
Proof. reflexivity. Qed.

(** * Further properties of the adapter *)

(** ** Escape *)

Lemma replace_first_no_quote (by_ s : string) :
  has_quote s = false -> Js.replace_first "'"%char by_ s = s.
Proof.
  induction s as [|c s IH]; simpl; [reflexivity|].
  intros H. apply orb_false_iff in H. destruct H as (Hc & Hs).
  rewrite Hc. now rewrite IH.
Qed.

Lemma replace_first_at_quote (by_ a b : string) :
  has_quote a = false ->
  Js.replace_first "'"%char by_ (a ++ String "'"%char b) = a ++ by_ ++ b.
Proof.
  induction a as [|c a IH]; simpl.
  - reflexivity.
  - intros H. apply orb_false_iff in H. destruct H as (Hc & Ha).
    rewrite Hc. now rewrite IH.
Qed.

(** X1: [escape] wraps a word without a single quote in two quotes as it is;
    in a word with quotes it doubles the first one and leaves everything
    after it, later quotes included, as it is. *)
Theorem escape_doubles_first_quote_only (a b : string)
    (Ha : has_quote a = false) :
  escape a = "'" ++ a ++ "'"
  /\ escape (a ++ "'" ++ b) = "'" ++ a ++ "''" ++ b ++ "'".
Proof.
  unfold escape. split.
  - now rewrite replace_first_no_quote.
  - change ("'" ++ b) with (String "'"%char b).
    rewrite replace_first_at_quote by exact Ha.
    simpl. now rewrite !append_assoc.
Qed.

Lemma escape_doubles_first_quote_only_witness :
  escape "O'Bri'en" = "'O''Bri'en'".
Proof.
  exact (proj2 (escape_doubles_first_quote_only "O" "Bri'en" eq_refl)).
Defined.

(** ** Type mapper, from the native side *)

Lemma get_In {A} (o : Js.object A) (k : string) (v : A) :
  Js.get o k = Some v -> In (k, v) o.
Proof.
  induction o as [|[k0 v0] rest IH]; simpl; [discriminate|].
  destruct (String.eqb_spec k0 k) as [->|_].
  - intros H. injection H as <-. now left.
  - intros H. right. now apply IH.
Qed.

(** X2: Every native type of [typeMap] has one of the seven kinds, and the
    native type that [getSqlType] gives for that kind has the same kind
    again: from the native side the round trip keeps the kind, though not
    the native type (CHAR comes back as VARCHAR). *)
Theorem typeMap_native_round_trip (native kind : string)
    (Hget : Js.get typeMap native = Some kind) :
  In kind abstract_kinds
  /\ Js.get typeMap (getSqlType (Some kind)) = Some kind
  /\ (Js.get typeMap "CHAR" = Some "string" /\ getSqlType (Some "string") = "VARCHAR").
Proof.
  apply get_In in Hget.
  assert (Hall : Forall (fun e => In (snd e) abstract_kinds
                                  /\ Js.get typeMap (getSqlType (Some (snd e)))
                                     = Some (snd e)) typeMap).
  { repeat (constructor; [split; [cbv; tauto | reflexivity]|]). constructor. }
  rewrite Forall_forall in Hall. destruct (Hall _ Hget) as (H1 & H2).
  repeat split; assumption.
Qed.

Lemma typeMap_native_round_trip_witness :
  Js.get typeMap (getSqlType (Some "integer")) = Some "integer".
Proof.
  exact (proj1 (proj2 (typeMap_native_round_trip "BIGINT" "integer" eq_refl))).
Defined.

(** ** Define *)

Lemma define_query_map (collectionName : string) (definition : Js.object AttributeSpec) :
  define_query collectionName definition
  = "CREATE TABLE " ++ collectionName ++ " ("
    ++ Js.join "," (map (fun e => define_attrQuery (fst e) (snd e)) definition) ++ ")".
Proof.
  unfold define_query, define_schemaData. rewrite define_schemaData_acc. simpl.
  now rewrite ?append_assoc.
Qed.

(** X4: The CREATE TABLE statement of [define] does not depend on the [unique]
    flag of any attribute, nor on the declared type and length of a primary
    key: two definitions with the same names in the same order, the same
    primaryKey and autoIncrement flags and, for the attributes that are no
    primary key, the same type and length, give the same statement. *)
Theorem define_ignores_unique_and_key_type
    (collectionName : string) (definition1 definition2 : Js.object AttributeSpec)
    (Hsame : Forall2 (fun e1 e2 =>
                        fst e1 = fst e2
                        /\ primaryKey (snd e1) = primaryKey (snd e2)
                        /\ autoIncrement (snd e1) = autoIncrement (snd e2)
                        /\ (primaryKey (snd e1) = false ->
                            attr_type (snd e1) = attr_type (snd e2)
                            /\ attr_length (snd e1) = attr_length (snd e2)))
                     definition1 definition2) :
  define_query collectionName definition1 = define_query collectionName definition2.
Proof.
  rewrite !define_query_map.
  assert (Hmap : map (fun e => define_attrQuery (fst e) (snd e)) definition1
                 = map (fun e => define_attrQuery (fst e) (snd e)) definition2);
    [|now rewrite Hmap].
  induction Hsame as [|[n1 a1] [n2 a2] l1 l2 (Hn & Hk & Ha & Hrest) _ IH];
    cbn [map fst snd] in *.
  - reflexivity.
  - rewrite IH. f_equal. subst n2.
    unfold define_attrQuery. rewrite <- Hk, <- Ha.
    destruct (primaryKey a1); [reflexivity|].
    destruct (Hrest eq_refl) as (-> & ->). reflexivity.
Qed.

Lemma define_ignores_unique_and_key_type_witness :
  define_query "t" [("id", {| attr_type := Some "text"; primaryKey := true;
                              autoIncrement := true; unique := true;
                              attr_length := Some 9%N |})]
  = define_query "t" [("id", Sample.attr "integer" true true)].
Proof.
  apply define_ignores_unique_and_key_type.
  repeat constructor; simpl; discriminate.
Defined.

Lemma getSqlType_VARCHAR (type : option string) :
  getSqlType type = "VARCHAR" <-> type = Some "string".
Proof.
  split.
  - destruct type as [t|]; [|discriminate]. unfold getSqlType.
    repeat match goal with
           | |- context [String.eqb t ?k] =>
               destruct (String.eqb_spec t k) as [->|_]; [try discriminate; auto|]
           end.
    discriminate.
  - intros ->. reflexivity.
Qed.

(** X5: For an attribute that is no primary key, [define] writes a length only
    for the kind string: VARCHAR with the declared length, or 255 when the
    length is absent or 0; for every other type the clause is the name and
    the native type, whatever length is declared. *)
Theorem define_length_only_for_string (attrName : string) (attribute : AttributeSpec)
    (Hkey : primaryKey attribute = false) :
  (attr_type attribute = Some "string" ->
   define_attrQuery attrName attribute
   = attrName ++ " VARCHAR("
     ++ Js.string_of_N match attr_length attribute with
                       | Some 0%N | None => 255%N
                       | Some n => n
                       end ++ ")")
  /\ (attr_type attribute <> Some "string" ->
      define_attrQuery attrName attribute
      = attrName ++ " " ++ getSqlType (attr_type attribute)).
Proof.
  unfold define_attrQuery. rewrite Hkey. split.
  - intros ->. simpl. destruct (attr_length attribute) as [[|n]|]; reflexivity.
  - intros Hne. destruct (String.eqb_spec (getSqlType (attr_type attribute)) "VARCHAR")
      as [Heq|_]; [|reflexivity].
    apply getSqlType_VARCHAR in Heq. contradiction.
Qed.

Lemma define_length_only_for_string_witness :
  define_attrQuery "n" {| attr_type := Some "string"; primaryKey := false;
                          autoIncrement := false; unique := false;
                          attr_length := Some 0%N |} = "n VARCHAR(255)"
  /\ define_attrQuery "d" {| attr_type := Some "date"; primaryKey := false;
                             autoIncrement := false; unique := false;
                             attr_length := Some 40%N |} = "d DATE".
Proof.
  split.
  - exact (proj1 (define_length_only_for_string "n"
                    {| attr_type := Some "string"; primaryKey := false;
                       autoIncrement := false; unique := false;
                       attr_length := Some 0%N |} eq_refl) eq_refl).
  - refine (proj2 (define_length_only_for_string "d"
                     {| attr_type := Some "date"; primaryKey := false;
                        autoIncrement := false; unique := false;
                        attr_length := Some 40%N |} eq_refl) _).
    discriminate.
Defined.

(** ** Find, destroy, update and create: clauses and parameters *)

Lemma find_sortData_acc (definition : Js.object AttributeSpec)
    (sort : Js.object Js.value) (sortData : list string) :
  fold_left (fun sortData '(column, direction) =>
               if Js.hasOwnProperty definition column
               then (sortData ++ [(column ++ " " ++ Js.toString direction)%string])%list
               else sortData)
            sort sortData
  = (sortData
     ++ map (fun e => (fst e ++ " " ++ Js.toString (snd e))%string)
            (filter (fun e => Js.hasOwnProperty definition (fst e)) sort))%list.
Proof.
  revert sortData.
  induction sort as [|[column direction] rest IH]; intros sortData; simpl.
  - now rewrite app_nil_r.
  - destruct (Js.hasOwnProperty definition column); simpl.
    + rewrite IH. now rewrite <- app_assoc.
    + apply IH.
Qed.

Lemma update_whereData_acc (definition : Js.object AttributeSpec)
    (where_ : Js.object Js.value) (whereData : list string) :
  fold_left (fun whereData '(column, param) =>
               if Js.hasOwnProperty definition column
               then (whereData ++ [(column ++ " = " ++ "'" ++ Js.toString param ++ "'")%string])%list
               else whereData)
            where_ whereData
  = (whereData
     ++ map (fun e => (fst e ++ " = '" ++ Js.toString (snd e) ++ "'")%string)
            (filter (fun e => Js.hasOwnProperty definition (fst e)) where_))%list.
Proof.
  revert whereData.
  induction where_ as [|[column param] rest IH]; intros whereData; simpl.
  - now rewrite app_nil_r.
  - destruct (Js.hasOwnProperty definition column); simpl.
    + rewrite IH. now rewrite <- app_assoc.
    + apply IH.
Qed.

Lemma join_positive (sep s : string) (rest : list string) :
  0 < String.length s -> 0 < String.length (Js.join sep (s :: rest)).
Proof.
  intros Hs. unfold Js.join. simpl. destruct rest; [exact Hs|].
  rewrite length_append. lia.
Qed.

Lemma filter_none {A} (p : A -> bool) (l : list A) :
  (forall x, In x l -> p x = false) -> filter p l = [].
Proof.
  induction l as [|x l IH]; simpl; [reflexivity|]. intros H.
  rewrite (H x) by now left. apply IH. intros y Hy. apply H. now right.
Qed.



(** [destroy] builds its WHERE clause and its parameters as [find] does from
    the same options. *)
Theorem destroy_where_as_find (collection : Collection) (options : Options) :
  destroy_sql collection options
  = ("DELETE FROM " ++ tableName collection ++ find_whereQuery collection options,
     find_params collection options).
Proof.
  unfold destroy_sql, find_whereQuery, find_params.
  destruct (where_bound (definition collection) (opt_where options)); reflexivity.
Qed.





(** A filter on a column called length, alone: [destroy] deletes every
    row. *)
Example destroy_by_length :
  destroy_sql
    {| tableName := "tracks";
       definition := [("id", Sample.attr "integer" true true);
                      ("length", Sample.attr "integer" false false)] |}
    {| opt_where := [("length", Js.Number "3")]; opt_sort := [];
       opt_limit := Js.Undefined |}
  = ("DELETE FROM tracks", []).
Proof. reflexivity. Qed.





(** On the sample collection, whose id is autoIncrement: [create] inserts a
    given id, [update] leaves it out. *)
Example create_keeps_identity :
  create_sql Sample.people [("id", Js.Number "7"); ("ghost", Js.Null); ("name", Js.Str "Ann")]
  = "SELECT id,name FROM FINAL TABLE (INSERT INTO t (id,name) VALUES ('7','Ann'))".
Proof. reflexivity. Qed.

(** A values map with a numeric [length] and a column called 0: the value
    written is that of the property 0, here undefined. *)
Example create_from_length :
  create_sql {| tableName := "t"; definition := [("0", Sample.attr "string" false false)] |}
    [("length", Js.Number "1"); ("name", Js.Str "Ann")]
  = "SELECT 0 FROM FINAL TABLE (INSERT INTO t (0) VALUES ('undefined'))".
Proof. reflexivity. Qed.

(** ** Objects *)

Lemma keys_set {A} (o : Js.object A) (k : string) (v : A) :
  Js.keys (Js.set o k v)
  = if Js.hasOwnProperty o k then Js.keys o else (Js.keys o ++ [k])%list.
Proof.
  unfold Js.hasOwnProperty.
  induction o as [|[k0 v0] rest IH]; simpl; [reflexivity|].
  destruct (String.eqb_spec k0 k) as [->|Hne]; simpl; [reflexivity|].
  rewrite IH. destruct (Js.get rest k); reflexivity.
Qed.

Lemma get_None_iff {A} (o : Js.object A) (k : string) :
  Js.get o k = None <-> ~ In k (Js.keys o).
Proof.
  induction o as [|[k0 v0] rest IH]; simpl; [tauto|].
  destruct (String.eqb_spec k0 k) as [->|Hne].
  - split; [discriminate | tauto].
  - rewrite IH. tauto.
Qed.

Lemma NoDup_keys_set {A} (o : Js.object A) (k : string) (v : A) :
  NoDup (Js.keys o) -> NoDup (Js.keys (Js.set o k v)).
Proof.
  intros Hnd. rewrite keys_set. unfold Js.hasOwnProperty.
  destruct (Js.get o k) eqn:Hget; [exact Hnd|].
  apply get_None_iff in Hget.
  apply NoDup_app; repeat split; auto.
  - repeat constructor. intros [].
  - intros x Hx [<-|[]]. contradiction.
Qed.

Lemma find_app {A} (p : A -> bool) (l1 l2 : list A) :
  List.find p (l1 ++ l2) = match List.find p l1 with Some x => Some x | None => List.find p l2 end.
Proof.
  induction l1 as [|x l1 IH]; simpl; [reflexivity|].
  destruct (p x); [reflexivity | exact IH].
Qed.

(** ** Describe: rows of the same NAME *)

Lemma describe_forEach_get (attrs : list Row) :
  Forall (fun attr => Js.toString (field attr "NAME") <> "__proto__") attrs ->
  forall acc attributes name,
    describe_forEach attrs acc = Some attributes ->
    Js.get attributes name
    = match List.find (fun attr => Js.toString (field attr "NAME") =? name) (rev attrs) with
      | Some attr => describe_attribute attr
      | None => Js.get acc name
      end.
Proof.
  induction 1 as [|attr rest Hname _ IH]; intros acc attributes name Hrun; simpl in Hrun.
  - injection Hrun as <-. reflexivity.
  - destruct (describe_attribute attr) as [a|] eqn:Hattr; [|discriminate].
    destruct (String.eqb_spec (Js.toString (field attr "NAME")) "__proto__") as [|_];
      [contradiction|].
    rewrite (IH _ _ name Hrun). simpl rev. rewrite find_app.
    destruct (List.find _ (rev rest)); [reflexivity|].
    simpl. rewrite get_set.
    destruct (Js.toString (field attr "NAME") =? name); [now rewrite Hattr | reflexivity].
Qed.

Lemma describe_forEach_rows (attrs : list Row) :
  forall acc attributes,
    describe_forEach attrs acc = Some attributes ->
    forall attr, In attr attrs -> exists a, describe_attribute attr = Some a.
Proof.
  induction attrs as [|attr0 rest IH]; intros acc attributes Hrun attr Hin; simpl in Hrun.
  - destruct Hin.
  - destruct (describe_attribute attr0) as [a|] eqn:Hattr; [|discriminate].
    destruct Hin as [<-|Hin]; [now exists a | now apply (IH _ _ Hrun)].
Qed.

Lemma describe_forEach_NoDup (attrs : list Row) :
  forall acc attributes,
    describe_forEach attrs acc = Some attributes ->
    NoDup (Js.keys acc) -> NoDup (Js.keys attributes).
Proof.
  induction attrs as [|attr rest IH]; intros acc attributes Hrun Hnd; simpl in Hrun.
  - now injection Hrun as <-.
  - destruct (describe_attribute attr) as [a|]; [|discriminate].
    apply (IH _ _ Hrun).
    destruct (Js.toString (field attr "NAME") =? "__proto__"); [exact Hnd|].
    now apply NoDup_keys_set.
Qed.

(** X13: When the catalog answers with several rows of the same NAME (the query
    filters on the table name only), the attribute map that [describe]
    hands over has that column once, built from the last of these rows;
    every row's NAME is a column of the map.  No NAME is "__proto__". *)
Theorem describe_last_row_wins (attrs : list Row)
    (attributes : Js.object AttributeSpec)
    (Hnames : Forall (fun attr => Js.toString (field attr "NAME") <> "__proto__") attrs)
    (Hrun : describe_forEach attrs [] = Some attributes) :
  (forall name,
      Js.get attributes name
      = match List.find (fun attr => Js.toString (field attr "NAME") =? name) (rev attrs) with
        | Some attr => describe_attribute attr
        | None => None
        end)
  /\ (forall attr, In attr attrs ->
                   exists a, Js.get attributes (Js.toString (field attr "NAME")) = Some a)
  /\ NoDup (Js.keys attributes).
Proof.
  split; [|split].
  - intros name. apply (describe_forEach_get attrs Hnames [] attributes name Hrun).
  - intros attr Hin.
    rewrite (describe_forEach_get attrs Hnames [] attributes _ Hrun).
    destruct (List.find _ (rev attrs)) as [attr'|] eqn:Hfind.
    + apply find_some in Hfind. destruct Hfind as (Hin' & _).
      apply in_rev in Hin'. apply (describe_forEach_rows attrs [] attributes Hrun _ Hin').
    + exfalso. apply in_rev in Hin.
      pose proof (find_none _ _ Hfind attr Hin) as Hp.
      simpl in Hp. now rewrite String.eqb_refl in Hp.
  - apply (describe_forEach_NoDup attrs [] attributes Hrun). constructor.
Qed.

Lemma describe_last_row_wins_witness :
  exists attributes,
    describe_forEach [Sample.id_row; [("NAME", Js.Str "ID"); ("COLTYPE", Js.Str "CHAR")]] []
    = Some attributes
    /\ Js.get attributes "ID"
       = describe_attribute [("NAME", Js.Str "ID"); ("COLTYPE", Js.Str "CHAR")].
Proof.
  eexists. split; [reflexivity|].
  refine (proj1 (describe_last_row_wins
                   [Sample.id_row; [("NAME", Js.Str "ID"); ("COLTYPE", Js.Str "CHAR")]]
                   _ _ eq_refl) "ID").
  repeat constructor; discriminate.
Defined.

(** ** Operations, end to end *)

Lemma run_idle (d : Driver) (n : nat) (w : World) :
  queue w = [] -> run d n w = w.
Proof.
  intros Hq. induction n as [|n IH]; simpl; [reflexivity|].
  unfold step. now rewrite Hq.
Qed.

(** From a world at rest, an operation whose handle the driver refuses:
    the operationCallback runs in the first turn and leaves one event. *)
Lemma settle_refused (d : Driver) (w : World) (connectionName : string)
    (connection : RegisteredConnection) (op : Op) (err : DriverError) :
  queue w = [] ->
  Js.get (connections w) connectionName = Some connection ->
  drv_open d (trace w ++ [EvOpen (rc_pool connection)
                                 (getConnectionString (config connection))])%list
  = Some err ->
  let w' := settle d (start d connectionName op w) in
  trace w' = (trace w
              ++ [EvOpen (rc_pool connection) (getConnectionString (config connection));
                  refused_event op err])%list
  /\ connections w' = connections w
  /\ next_handle w' = next_handle w
  /\ queue w' = [].
Proof.
  intros Hquiet Hreg Hfail w'. subst w'.
  set (ev := EvOpen (rc_pool connection) (getConnectionString (config connection))) in *.
  set (p := POpen connectionName op (inl err)).
  assert (Hstart : start d connectionName op w = schedule p (emit ev w)).
  { unfold start. rewrite Hreg. cbv zeta. fold ev.
    change (trace (emit ev w)) with (trace w ++ [ev])%list. now rewrite Hfail. }
  rewrite Hstart. unfold settle, turns_left.
  change (queue (schedule p (emit ev w))) with (queue w ++ [p])%list.
  rewrite Hquiet.
  change (fold_right (fun p0 n0 => turns_of p0 + n0) 0 ([] ++ [p])%list)
    with (turns_of p + 0).
  replace (turns_of p + 0) with (S (turns_of p - 1))
    by (pose proof (turns_of_pos p); lia).
  rewrite (run_S d _ _ p []) by (simpl; now rewrite Hquiet).
  unfold p. cbn [run_pending]. rewrite operationCallback_refused.
  rewrite run_idle by reflexivity.
  simpl. rewrite <- app_assoc. auto.
Qed.

(** X15: When the driver refuses the handle, the operation calls the caller's
    callback once and does nothing else: no statement is issued, the handle
    stored on the connection stays the one it was, and nothing is left
    waiting.  The caller is handed the error as it is; [define] alone,
    whose callback looks at the state of every error it is given, hands
    over success with an empty result when the state is 42S01. *)
Theorem open_failure_is_reported
    (d : Driver) (w : World) (connectionName : string)
    (connection : RegisteredConnection) (op : Op) (err : DriverError)
    (Hquiet : queue w = [])
    (Hreg : Js.get (connections w) connectionName = Some connection)
    (Hfail : drv_open d (trace w ++ [EvOpen (rc_pool connection)
                                            (getConnectionString (config connection))])%list
             = Some err) :
  let w' := settle d (start d connectionName op w) in
  let recovered := match op with
                   | OpQuery _ _ CbDefine => state_is err "42S01"
                   | _ => false
                   end in
  let ev := EvOpen (rc_pool connection) (getConnectionString (config connection)) in
  let reported (w1 : World) := trace w1 = (trace w ++ [ev; EvCb (Some err) RNone])%list in
  (trace w' = (trace w
               ++ [ev; if recovered then EvCb None (RRows []) else EvCb (Some err) RNone])%list
   /\ connections w' = connections w
   /\ next_handle w' = next_handle w
   /\ queue w' = [])
  /\ (forall collectionName definition,
         trace (settle d (define d connectionName collectionName definition w))
         = (trace w
            ++ [ev; if state_is err "42S01" then EvCb None (RRows [])
                    else EvCb (Some err) RNone])%list)
  /\ (forall collectionName sql data,
         reported (settle d (query d connectionName collectionName sql data w)))
  /\ (forall collectionName,
         reported (settle d (describe d connectionName collectionName w)))
  /\ (forall collectionName relations,
         reported (settle d (drop d connectionName collectionName relations w)))
  /\ (forall collectionName options,
         reported (settle d (find d connectionName collectionName options w)))
  /\ (forall collectionName values,
         reported (settle d (create d connectionName collectionName values w)))
  /\ (forall collectionName options values,
         reported (settle d (update d connectionName collectionName options values w)))
  /\ (forall collectionName options,
         reported (settle d (destroy d connectionName collectionName options w))).
Proof.
  intros w' recovered ev reported.
  assert (Hany : forall op', trace (settle d (start d connectionName op' w))
                             = (trace w ++ [ev; refused_event op' err])%list).
  { intros op'.
    exact (proj1 (settle_refused d w connectionName connection op' err Hquiet Hreg Hfail)). }
  split; [|repeat split; intros; apply Hany].
  destruct (settle_refused d w connectionName connection op err Hquiet Hreg Hfail)
    as (Ht & Hc & Hn & Hq).
  fold w' in Ht, Hc, Hn, Hq. repeat split; try assumption.
  rewrite Ht. do 3 f_equal. unfold recovered, refused_event, define_event.
  destruct op as [query data []| | | | |]; reflexivity.
Qed.

Lemma open_failure_is_reported_witness :
  trace (settle (Sample.driver_refusing Sample.already_exists)
           (define (Sample.driver_refusing Sample.already_exists)
                   "c" "t" (definition Sample.people) Sample.registered))
  = [EvOpen false Sample.connectionString; EvCb None (RRows [])]
  /\ trace (settle (Sample.driver_refusing Sample.already_exists)
              (query (Sample.driver_refusing Sample.already_exists)
                     "c" "t" "SELECT 1" None Sample.registered))
     = [EvOpen false Sample.connectionString; EvCb (Some Sample.already_exists) RNone].
Proof.
  pose proof (open_failure_is_reported
                (Sample.driver_refusing Sample.already_exists)
                Sample.registered "c" Sample.entry
                (OpQuery "SELECT 1" None CbCaller)
                Sample.already_exists eq_refl eq_refl eq_refl)
    as (_ & Hdefine & Hquery & _).
  split.
  - exact (Hdefine "t" (definition Sample.people)).
  - exact (Hquery "t" "SELECT 1" None).
Defined.

(** An operation whose body is one statement: once the loop is at rest the
    world is the one that the statement's callback leaves, run on the
    world [w3] that holds the open request and the statement. *)
Lemma settle_statement (d : Driver) (w : World) (connectionName : string)
    (connection : RegisteredConnection) (op : Op) (sql : string)
    (params : option (list Js.value)) (k : Kont) :
  queue w = [] ->
  Js.get (connections w) connectionName = Some connection ->
  drv_open d (trace w ++ [EvOpen (rc_pool connection)
                                 (getConnectionString (config connection))])%list
  = None ->
  turns_of (POpen connectionName op (inr (next_handle w))) = 2 ->
  (forall w2, handle_of w2 connectionName = Some (next_handle w) ->
              run_op d connectionName op w2
              = conn_query d (next_handle w) sql params k w2) ->
  let ev := EvOpen (rc_pool connection) (getConnectionString (config connection)) in
  let q := EvQuery (next_handle w) sql params in
  exists w3,
    trace w3 = (trace w ++ [ev; q])%list
    /\ queue w3 = []
    /\ next_handle w3 = S (next_handle w)
    /\ handle_of w3 connectionName = Some (next_handle w)
    /\ settle d (start d connectionName op w)
       = run_kont d k (drv_query d (trace w ++ [ev; q])%list) w3.
Proof.
  intros Hquiet Hreg Hopen Hturns Hbody ev q.
  rewrite (settle_start d w connectionName connection op Hquiet Hreg Hopen).
  cbv zeta. fold ev. rewrite Hturns.
  set (w2 := set_conn connectionName (next_handle w) _).
  assert (Hh2 : handle_of w2 connectionName = Some (next_handle w)).
  { unfold w2. eapply handle_of_set_conn. simpl. exact Hreg. }
  assert (Ht2 : trace w2 = (trace w ++ [ev])%list).
  { unfold w2, set_conn. simpl. rewrite Hreg. reflexivity. }
  assert (Hq2 : queue w2 = []).
  { unfold w2, set_conn. simpl. rewrite Hreg. reflexivity. }
  assert (Hn2 : next_handle w2 = S (next_handle w)).
  { unfold w2, set_conn. simpl. rewrite Hreg. reflexivity. }
  rewrite (Hbody w2 Hh2). fold q.
  assert (Htq : (trace w2 ++ [q])%list = (trace w ++ [ev; q])%list).
  { rewrite Ht2, <- app_assoc. reflexivity. }
  exists (set_queue [] (emit q w2)). repeat split.
  - simpl. exact Htq.
  - simpl. exact Hn2.
  - exact Hh2.
  - change (2 - 1) with 1.
    rewrite (run_S d 0 _ (PQuery k (drv_query d (trace w2 ++ [q])%list)) []).
    + simpl run. rewrite Htq. reflexivity.
    + simpl. now rewrite Hq2.
Qed.

(** X16: [query] issues the statement it is given, with its data, on the handle
    it has just opened, and hands the driver's answer to the caller as it
    is: the rows, or the error. *)
Theorem query_passes_through
    (d : Driver) (w : World) (connectionName collectionName sql : string)
    (data : option (list Js.value)) (connection : RegisteredConnection)
    (Hquiet : queue w = [])
    (Hreg : Js.get (connections w) connectionName = Some connection)
    (Hopen : drv_open d (trace w ++ [EvOpen (rc_pool connection)
                                            (getConnectionString (config connection))])%list
             = None) :
  let ev := EvOpen (rc_pool connection) (getConnectionString (config connection)) in
  let q := EvQuery (next_handle w) sql data in
  let w' := settle d (query d connectionName collectionName sql data w) in
  trace w' = (trace w ++ [ev; q; answer_event (drv_query d (trace w ++ [ev; q])%list)])%list
  /\ queue w' = [].
Proof.
  intros ev q w'. subst w'. unfold query.
  destruct (settle_statement d w connectionName connection
              (OpQuery sql data CbCaller) sql data (K_query_callback CbCaller)
              Hquiet Hreg Hopen eq_refl)
    as (w3 & Ht3 & Hq3 & _ & _ & ->).
  { intros w2 Hh2. simpl. unfold __QUERY__. now rewrite Hh2. }
  fold ev q in Ht3 |- *.
  destruct (drv_query d (trace w ++ [ev; q])%list) as [err|rows]; simpl;
    rewrite Ht3, Hq3, <- app_assoc; auto.
Qed.

Lemma query_passes_through_witness :
  trace (settle Sample.driver_ok
           (query Sample.driver_ok "c" "t" "SELECT 1" None Sample.registered))
  = [EvOpen false Sample.connectionString; EvQuery 0 "SELECT 1" None;
     EvCb None (RRows [])].
Proof.
  refine (proj1 (query_passes_through Sample.driver_ok Sample.registered "c" "t"
                   "SELECT 1" None
                   {| config := Sample.cfg; collections := [("t", Sample.people)];
                      rc_pool := false; conn := None |} _ _ _)); reflexivity.
Defined.

Section OneStatement.

Variable d : Driver.
Variable w : World.
Variables connectionName collectionName : string.
Variable connection : RegisteredConnection.
Hypothesis Hquiet : queue w = [].
Hypothesis Hreg : Js.get (connections w) connectionName = Some connection.
Hypothesis Hopen :
  drv_open d (trace w ++ [EvOpen (rc_pool connection)
                                 (getConnectionString (config connection))])%list
  = None.

Local Abbreviation ev :=
  (EvOpen (rc_pool connection) (getConnectionString (config connection))).
Local Abbreviation h := (next_handle w).

Lemma collection_of_registered :
  collection_of w connectionName collectionName
  = Js.get (collections connection) collectionName.
Proof.
  unfold collection_of. now rewrite Hreg.
Qed.



Lemma settle_unknown_collection (op : Op) :
  (forall w2, run_op d connectionName op w2 = emit EvTypeError w2) ->
  trace (settle d (start d connectionName op w)) = (trace w ++ [ev; EvTypeError])%list
  /\ handle_of (settle d (start d connectionName op w)) connectionName = Some h
  /\ queue (settle d (start d connectionName op w)) = [].
Proof.
  intros Hbody.
  rewrite (settle_start d w connectionName connection op Hquiet Hreg Hopen).
  cbv zeta. rewrite Hbody.
  set (w2 := set_conn connectionName (next_handle w) _).
  assert (Hh2 : handle_of w2 connectionName = Some h).
  { unfold w2. eapply handle_of_set_conn. simpl. exact Hreg. }
  assert (Ht2 : trace w2 = (trace w ++ [ev])%list).
  { unfold w2, set_conn. simpl. rewrite Hreg. reflexivity. }
  assert (Hq2 : queue w2 = []).
  { unfold w2, set_conn. simpl. rewrite Hreg. reflexivity. }
  rewrite run_idle by exact Hq2.
  repeat split; [| exact Hh2 | exact Hq2].
  simpl. rewrite Ht2, <- app_assoc. reflexivity.
Qed.

(** X19: [find], [create], [update] and [destroy] on a collection that the
    connection does not have (its name being no inherited property name)
    still open a handle and store it; then they
    throw a TypeError: no statement is issued and the caller's callback is
    never called. *)
Theorem unknown_collection_throws_after_open
    (options : Options) (values : Js.object Js.value)
    (Hcol : Js.get (collections connection) collectionName = None)
    (Hown : inherited_property collectionName = false) :
  let thrown (w' : World) :=
    trace w' = (trace w ++ [ev; EvTypeError])%list
    /\ handle_of w' connectionName = Some h
    /\ queue w' = [] in
  thrown (settle d (find d connectionName collectionName options w))
  /\ thrown (settle d (create d connectionName collectionName values w))
  /\ thrown (settle d (update d connectionName collectionName options values w))
  /\ thrown (settle d (destroy d connectionName collectionName options w)).
Proof.
  intros thrown. unfold thrown, find, create, update, destroy.
  rewrite collection_of_registered, Hcol.
  repeat split; apply settle_unknown_collection; reflexivity.
Qed.

End OneStatement.



Lemma unknown_collection_throws_after_open_witness :
  trace (settle Sample.driver_ok
           (find Sample.driver_ok "c" "ghosts" Sample.no_options Sample.registered))
  = [EvOpen false Sample.connectionString; EvTypeError].
Proof.
  refine (proj1 (proj1 (unknown_collection_throws_after_open Sample.driver_ok
                          Sample.registered "c" "ghosts"
                          {| config := Sample.cfg; collections := [("t", Sample.people)];
                             rc_pool := false; conn := None |}
                          _ _ _ Sample.no_options [] _ _))); reflexivity.
Defined.

(** ** Describe, end to end *)

(** C9: whatever the world, the callback of [describe] calls the caller
    once.  It hands over null without error exactly when the driver's
    answer is zero rows, and the error when the answer is one.  When the
    answer is rows that all have a string COLTYPE it hands over an
    attribute map; each of its columns was built from a row of that NAME,
    has the kind that [typeMap] gives for the trimmed COLTYPE, and is
    marked primaryKey exactly when that row has IDENTITY 'Y', a KEYSEQ
    other than 0, NULLS 'N' and a COLTYPE that [typeMap] maps to integer,
    autoIncrement and unique being marked together with primaryKey.
    [describe] on a registered name, running alone and given its handle,
    issues the catalog query on that handle and hands the driver's answer
    to this callback: the caller gets null exactly for zero rows, the error
    for an error, and the attribute map for rows. *)
Theorem C9_describe_null_and_identity
    (d : Driver) (w : World) (connectionName collectionName : string)
    (connection : RegisteredConnection) :
  let handed (attrs : list Row) (attributes : Js.object AttributeSpec) :=
    describe_forEach attrs [] = Some attributes
    /\ forall name a,
         Js.get attributes name = Some a ->
         exists attr coltype,
           In attr attrs
           /\ Js.toString (field attr "NAME") = name
           /\ field attr "COLTYPE" = Js.Str coltype
           /\ (forall kind, attr_type a = Some kind
                            <-> Js.get typeMap (Js.trim coltype) = Some kind)
           /\ (primaryKey a = true
               <-> field attr "IDENTITY" = Js.Str "Y"
                   /\ field attr "KEYSEQ" <> Js.Number "0"
                   /\ field attr "NULLS" = Js.Str "N"
                   /\ Js.get typeMap (Js.trim coltype) = Some "integer")
           /\ autoIncrement a = primaryKey a
           /\ unique a = primaryKey a in
  let called (t : list Event) (answer : DriverError + list Row) (t' : list Event) :=
    (exists e, t' = (t ++ [e])%list)
    /\ (t' = (t ++ [EvCb None RNull])%list <-> answer = inr [])
    /\ (forall err, answer = inl err -> t' = (t ++ [EvCb (Some err) RNone])%list)
    /\ (forall attrs,
          answer = inr attrs -> attrs <> [] ->
          Forall (fun attr => exists coltype, field attr "COLTYPE" = Js.Str coltype) attrs ->
          exists attributes,
            handed attrs attributes
            /\ t' = (t ++ [EvCb None (RAttributes attributes)])%list) in
  (forall answer w0,
      called (trace w0) answer
             (trace (run_pending d (PQuery (K_query_callback CbDescribe) answer) w0)))
  /\ (queue w = [] ->
      Js.get (connections w) connectionName = Some connection ->
      drv_open d (trace w ++ [EvOpen (rc_pool connection)
                                     (getConnectionString (config connection))])%list
      = None ->
      let ev := EvOpen (rc_pool connection) (getConnectionString (config connection)) in
      let q := EvQuery (next_handle w) (describe_query collectionName) None in
      called (trace w ++ [ev; q])%list
             (drv_query d (trace w ++ [ev; q])%list)
             (trace (settle d (describe d connectionName collectionName w)))).
Proof.
  intros handed called.
  assert (Hcalled : forall answer w0,
             called (trace w0) answer
                    (trace (run_pending d (PQuery (K_query_callback CbDescribe) answer) w0))).
  { intros answer w0. unfold called. cbn [run_pending run_kont].
    assert (Hlast : forall e e', (trace w0 ++ [e])%list = (trace w0 ++ [e'])%list -> e = e').
    { intros e e' H. apply app_inv_head in H. now injection H. }
    destruct answer as [err|[|attr rest]].
    - cbn [query_cb cb emit trace].
      split; [eauto|]. split; [|split].
      + split; [intros H; apply Hlast in H; discriminate | discriminate].
      + intros err' H. now injection H as <-.
      + discriminate.
    - cbn [query_cb List.length Nat.eqb cb emit trace].
      split; [eauto|]. split; [|split].
      + split; reflexivity.
      + discriminate.
      + intros attrs H. injection H as <-. congruence.
    - unfold query_cb.
      change (Nat.eqb (List.length (attr :: rest)) 0) with false. cbv iota.
      split; [|split; [|split]].
      + destruct (describe_forEach (attr :: rest) []); cbn [cb emit trace]; eauto.
      + split; [|discriminate].
        destruct (describe_forEach (attr :: rest) []); cbn [cb emit trace];
          intros H; apply Hlast in H; discriminate.
      + discriminate.
      + intros attrs H _ Hrows. injection H as <-.
        destruct (describe_forEach_total (attr :: rest) Hrows []) as (attributes & Hrun).
        exists attributes. rewrite Hrun. cbn [cb emit trace].
        split; [|reflexivity]. split; [exact Hrun|].
        intros name a Hget.
        destruct (describe_forEach_sound (attr :: rest) [] attributes name a Hrun Hget)
          as [Hnil | (attr' & Hin & Hname & Hdesc)]; [discriminate|].
        destruct (describe_attribute_flags attr' a Hdesc)
          as (coltype & H1 & H2 & H3 & H4 & H5).
        exists attr', coltype. auto 10. }
  split; [exact Hcalled|].
  intros Hquiet Hreg Hopen ev q. unfold describe.
  destruct (settle_statement d w connectionName connection
              (OpQuery (describe_query collectionName) None CbDescribe)
              (describe_query collectionName) None (K_query_callback CbDescribe)
              Hquiet Hreg Hopen eq_refl)
    as (w3 & Ht3 & _ & _ & _ & ->).
  { intros w2 Hh2. simpl. unfold __QUERY__. now rewrite Hh2. }
  fold ev q in Ht3 |- *. rewrite <- Ht3.
  apply (Hcalled (drv_query d (trace w3)) w3).
Qed.

Lemma C9_describe_null_and_identity_witness :
  trace (settle (Sample.driver_rows [Sample.id_row])
           (describe (Sample.driver_rows [Sample.id_row]) "c" "t" Sample.registered))
  = [EvOpen false Sample.connectionString;
     EvQuery 0 (describe_query "t") None;
     EvCb None (RAttributes
                  [("ID", {| attr_type := Some "integer"; primaryKey := true;
                             autoIncrement := true; unique := true;
                             attr_length := None |})])]
  /\ trace (settle Sample.driver_ok (describe Sample.driver_ok "c" "t" Sample.registered))
     = [EvOpen false Sample.connectionString;
        EvQuery 0 (describe_query "t") None;
        EvCb None RNull].
Proof.
  split.
  - destruct (proj2 (C9_describe_null_and_identity (Sample.driver_rows [Sample.id_row])
                       Sample.registered "c" "t" Sample.entry) eq_refl eq_refl eq_refl)
      as (_ & _ & _ & Hrows).
    destruct (Hrows [Sample.id_row] eq_refl) as (attributes & (Hrun & _) & Ht).
    + discriminate.
    + repeat constructor. exists "INTEGER ". reflexivity.
    + rewrite Ht. injection Hrun as <-. reflexivity.
  - destruct (proj2 (C9_describe_null_and_identity Sample.driver_ok
                       Sample.registered "c" "t" Sample.entry) eq_refl eq_refl eq_refl)
      as (_ & Hnull & _).
    exact (proj2 Hnull eq_refl).
Defined.

(** ** Drop, for every list of relations *)

Lemma statements_app (a b : list Event) :
  statements (a ++ b) = (statements a ++ statements b)%list.
Proof. apply flat_map_app. Qed.

Lemma callbacks_app (a b : list Event) :
  callbacks (a ++ b) = (callbacks a ++ callbacks b)%list.
Proof. apply flat_map_app. Qed.

Lemma passCallback_emits (answer : DriverError + list Row) (w : World) :
  passCallback answer w = emit (passCallback_event answer) w.
Proof.
  destruct answer as [err|rows]; simpl; [|reflexivity].
  destruct (state_is err "42S02"); reflexivity.
Qed.

Lemma dropTable_issues (d : Driver) (connectionName tableName : string)
    (next : Kont) (h : Handle) (w : World) :
  handle_of w connectionName = Some h ->
  dropTable d connectionName tableName next w
  = schedule (PQuery next (drv_query d (trace w ++ [EvQuery h (drop_query tableName) None])%list))
             (emit (EvQuery h (drop_query tableName) None) w).
Proof.
  intros Hh. unfold dropTable. now rewrite Hh.
Qed.

Section DropSucceeds.

Variable d : Driver.
Hypothesis Hok : forall t, exists rows, drv_query d t = inr rows.
Variables connectionName collectionName : string.
Variable h : Handle.

(** The series, from a relation's callback that waits alone: the
    relations left are dropped in turn, then the target, and the caller is
    called once. *)
Lemma series_runs (rest : list string) :
  forall w rows m,
    queue w = [PQuery (K_next connectionName collectionName rest) (inr rows)] ->
    handle_of w connectionName = Some h ->
    exists evs rows',
      trace (run d (List.length rest + 2 + m) w) = (trace w ++ evs)%list
      /\ statements evs = (map drop_query rest ++ [drop_query collectionName])%list
      /\ callbacks evs = [(None, RRows rows')]
      /\ queue (run d (List.length rest + 2 + m) w) = [].
Proof.
  induction rest as [|tableName rest IH]; intros w rows m Hq Hh.
  - change (List.length (@nil string) + 2 + m) with (S (S m)).
    rewrite (run_S d _ _ _ _ Hq). cbn [run_pending run_kont passCallback]. unfold eachSeries.
    rewrite (dropTable_issues d _ _ _ h) by exact Hh.
    set (q := EvQuery h (drop_query collectionName) None).
    cbn [trace emit schedule set_queue]. destruct (Hok (trace w ++ [q])%list) as (rows' & ->).
    rewrite (run_S d _ _ (PQuery K_passCallback (inr rows')) []) by reflexivity.
    rewrite !run_idle by reflexivity.
    exists [q; EvCb None (RRows rows')], rows'. simpl.
    rewrite <- app_assoc. auto.
  - change (List.length (tableName :: rest) + 2 + m)
      with (S (List.length rest + 2 + m)).
    rewrite (run_S d _ _ _ _ Hq). cbn [run_pending run_kont passCallback]. unfold eachSeries.
    rewrite (dropTable_issues d _ _ _ h) by exact Hh.
    set (q := EvQuery h (drop_query tableName) None).
    cbn [trace emit schedule set_queue]. destruct (Hok (trace w ++ [q])%list) as (rows' & ->).
    edestruct (IH (schedule (PQuery (K_next connectionName collectionName rest) (inr rows'))
                            (emit q (set_queue [] w))) rows' m)
      as (evs & rows'' & Ht & Hs & Hc & Hqueue); [reflexivity | exact Hh |].
    exists (q :: evs), rows''. rewrite Ht. cbn [trace emit schedule set_queue].
    rewrite <- app_assoc. simpl. rewrite Hs, Hc. auto.
Qed.

End DropSucceeds.

(** X21: With a driver that answers every statement without error, [drop]
    issues the DROP TABLE of the first relation, then already that of the
    target (with the relations as parameters), then those of the other
    relations in order, and last the DROP TABLE of the target again; the
    caller's callback is called twice, each time with success. *)
Theorem drop_statements_when_all_succeed
    (d : Driver) (w : World) (connectionName collectionName : string)
    (relations : list string) (connection : RegisteredConnection)
    (Hquiet : queue w = [])
    (Hreg : Js.get (connections w) connectionName = Some connection)
    (Hopen : drv_open d (trace w ++ [EvOpen (rc_pool connection)
                                            (getConnectionString (config connection))])%list
             = None)
    (Hok : forall t, exists rows, drv_query d t = inr rows) :
  let w' := settle d (drop d connectionName collectionName relations w) in
  exists evs rows1 rows2,
    trace w' = (trace w
                ++ EvOpen (rc_pool connection) (getConnectionString (config connection))
                :: evs)%list
    /\ statements evs
       = (map drop_query (firstn 1 relations) ++ [drop_query collectionName]
          ++ map drop_query (skipn 1 relations) ++ [drop_query collectionName])%list
    /\ callbacks evs = [(None, RRows rows1); (None, RRows rows2)]
    /\ queue w' = [].
Proof.
  intros w'. subst w'. unfold drop.
  rewrite (settle_start d w connectionName connection _ Hquiet Hreg Hopen).
  cbv zeta.
  set (ev := EvOpen (rc_pool connection) (getConnectionString (config connection))).
  set (h := next_handle w).
  set (w2 := set_conn connectionName h _).
  assert (Hh2 : handle_of w2 connectionName = Some h).
  { unfold w2. eapply handle_of_set_conn. simpl. exact Hreg. }
  assert (Ht2 : trace w2 = (trace w ++ [ev])%list).
  { unfold w2, set_conn. simpl. rewrite Hreg. reflexivity. }
  assert (Hq2 : queue w2 = []).
  { unfold w2, set_conn. simpl. rewrite Hreg. reflexivity. }
  change (turns_of (POpen connectionName (OpDrop collectionName relations) (inr h)) - 1)
    with (3 + List.length relations).
  simpl run_op. unfold __DROP__. rewrite Hh2.
  set (qt := EvQuery h ("DROP TABLE " ++ collectionName)
                     (Some (map Js.Str relations))).
  destruct relations as [|r1 rest]; unfold eachSeries;
    rewrite (dropTable_issues d _ _ _ h) by exact Hh2.
  - set (q1 := EvQuery h (drop_query collectionName) None).
    unfold conn_query. cbn [trace emit schedule set_queue]. fold qt.
    destruct (Hok (trace w2 ++ [q1])%list) as (rows1 & ->).
    destruct (Hok ((trace w2 ++ [q1]) ++ [qt])%list) as (rows2 & ->).
    change (3 + List.length (@nil string)) with 3.
    rewrite (run_S d _ _ (PQuery K_passCallback (inr rows1))
               [PQuery K_passCallback (inr rows2)])
      by (simpl; now rewrite Hq2).
    cbn [run_pending run_kont passCallback].
    rewrite (run_S d _ _ (PQuery K_passCallback (inr rows2)) []) by reflexivity.
    rewrite !run_idle by reflexivity.
    exists [q1; qt; EvCb None (RRows rows1); EvCb None (RRows rows2)], rows1, rows2.
    simpl. rewrite Ht2, <- !app_assoc. auto.
  - set (q1 := EvQuery h (drop_query r1) None).
    unfold conn_query. cbn [trace emit schedule set_queue]. fold qt.
    destruct (Hok (trace w2 ++ [q1])%list) as (rows1 & ->).
    destruct (Hok ((trace w2 ++ [q1]) ++ [qt])%list) as (rows2 & ->).
    change (3 + List.length (r1 :: rest)) with (S (3 + List.length rest)).
    rewrite (run_S d _ _ (PQuery (K_next connectionName collectionName rest) (inr rows1))
               [PQuery K_passCallback (inr rows2)])
      by (simpl; now rewrite Hq2).
    cbn [run_pending run_kont passCallback]. unfold eachSeries.
    destruct rest as [|r2 rest]; rewrite (dropTable_issues d _ _ _ h) by exact Hh2.
    + set (q3 := EvQuery h (drop_query collectionName) None).
      cbn [trace emit schedule set_queue]. destruct (Hok (((trace w2 ++ [q1]) ++ [qt]) ++ [q3])%list)
        as (rows3 & ->).
      change (3 + List.length (@nil string)) with 3.
      rewrite (run_S d _ _ (PQuery K_passCallback (inr rows2))
                 [PQuery K_passCallback (inr rows3)]) by reflexivity.
      cbn [run_pending run_kont passCallback].
      rewrite (run_S d _ _ (PQuery K_passCallback (inr rows3)) []) by reflexivity.
      rewrite !run_idle by reflexivity.
      exists [q1; qt; q3; EvCb None (RRows rows2); EvCb None (RRows rows3)], rows2, rows3.
      simpl. rewrite Ht2, <- !app_assoc. auto.
    + set (q3 := EvQuery h (drop_query r2) None).
      cbn [trace emit schedule set_queue]. destruct (Hok (((trace w2 ++ [q1]) ++ [qt]) ++ [q3])%list)
        as (rows3 & ->).
      replace (3 + List.length (r2 :: rest)) with (S (List.length rest + 2 + 1))
        by (simpl; lia).
      rewrite (run_S d _ _ (PQuery K_passCallback (inr rows2))
                 [PQuery (K_next connectionName collectionName rest) (inr rows3)])
        by reflexivity.
      cbn [run_pending run_kont passCallback].
      edestruct (series_runs d Hok connectionName collectionName h rest
                   (cb None (RRows rows2)
                      (set_queue [PQuery (K_next connectionName collectionName rest)
                                         (inr rows3)]
                         (schedule (PQuery (K_next connectionName collectionName rest)
                                           (inr rows3))
                            (emit q3
                               (set_queue [PQuery K_passCallback (inr rows2)]
                                  (schedule (PQuery K_passCallback (inr rows2))
                                     (emit qt
                                        (schedule
                                           (PQuery (K_next connectionName collectionName
                                                           (r2 :: rest)) (inr rows1))
                                           (emit q1 w2)))))))))
                   rows3 1)
        as (evs & rows4 & Ht & Hs & Hc & Hqueue); [reflexivity | exact Hh2 |].
      exists ([q1; qt; q3; EvCb None (RRows rows2)] ++ evs)%list, rows2, rows4.
      split; [|split; [|split]].
      * refine (eq_trans Ht _). cbn [trace emit schedule set_queue cb].
        rewrite Ht2, <- !app_assoc. reflexivity.
      * rewrite statements_app, Hs. reflexivity.
      * rewrite callbacks_app, Hc. reflexivity.
      * exact Hqueue.
Qed.

Lemma drop_statements_when_all_succeed_witness :
  statements (trace (settle Sample.driver_ok
                       (drop Sample.driver_ok "c" "t" ["r1"; "r2"; "r3"] Sample.registered)))
  = ["DROP TABLE r1"; "DROP TABLE t"; "DROP TABLE r2"; "DROP TABLE r3"; "DROP TABLE t"].
Proof.
  destruct (drop_statements_when_all_succeed Sample.driver_ok Sample.registered
              "c" "t" ["r1"; "r2"; "r3"]
              {| config := Sample.cfg; collections := [("t", Sample.people)];
                 rc_pool := false; conn := None |}
              eq_refl eq_refl eq_refl (fun _ => ex_intro _ [] eq_refl))
    as (evs & rows1 & rows2 & Ht & Hs & _).
  rewrite Ht. cbn [trace emit schedule set_queue]. rewrite statements_app. simpl. exact Hs.
Defined.

Lemma DROP_issues_target_at_once_witness :
  statements
    (trace (__DROP__ Sample.driver_ok "c" "t" ["r1"; "r2"]
              (set_conn "c" 0 Sample.registered)))
  = ["DROP TABLE r1"; "DROP TABLE t"].
Proof.
  rewrite (DROP_issues_target_at_once Sample.driver_ok "c" "t" ["r1"; "r2"]
             (set_conn "c" 0 Sample.registered) 0 eq_refl).
  reflexivity.
Defined.

Lemma define_trace_witness :
  trace (settle Sample.driver_ok
           (define Sample.driver_ok "c" "t" (definition Sample.people) Sample.registered))
  = [EvOpen false Sample.connectionString;
     EvQuery 0
       "CREATE TABLE t (id INTEGER GENERATED ALWAYS AS IDENTITY PRIMARY KEY,name VARCHAR(255))"
       None;
     EvCb None (RRows [])].
Proof.
  exact (define_trace Sample.driver_ok Sample.registered "c"
           {| config := Sample.cfg; collections := [("t", Sample.people)];
              rc_pool := false; conn := None |}
           "t" (definition Sample.people) eq_refl eq_refl eq_refl).
Defined.

(** X22: When the driver answers the DROP TABLE of the first relation with an
    error, whatever its state, [drop] hands that error to the caller and
    drops no other relation; the DROP TABLE of the target has been issued
    all the same, and its answer reaches the caller in a second call. *)
Theorem drop_first_relation_fails
    (d : Driver) (w : World) (connectionName collectionName r1 : string)
    (rest : list string) (connection : RegisteredConnection) (err : DriverError)
    (Hquiet : queue w = [])
    (Hreg : Js.get (connections w) connectionName = Some connection)
    (Hopen : drv_open d (trace w ++ [EvOpen (rc_pool connection)
                                            (getConnectionString (config connection))])%list
             = None)
    (Hfail : drv_query d (trace w
                          ++ [EvOpen (rc_pool connection)
                                     (getConnectionString (config connection));
                              EvQuery (next_handle w) (drop_query r1) None])%list
             = inl err) :
  let ev := EvOpen (rc_pool connection) (getConnectionString (config connection)) in
  let q1 := EvQuery (next_handle w) (drop_query r1) None in
  let qt := EvQuery (next_handle w) (drop_query collectionName)
                    (Some (map Js.Str (r1 :: rest))) in
  let w' := settle d (drop d connectionName collectionName (r1 :: rest) w) in
  trace w'
  = (trace w
     ++ [ev; q1; qt; EvCb (Some err) RNone;
         passCallback_event (drv_query d (trace w ++ [ev; q1; qt])%list)])%list
  /\ queue w' = [].
Proof.
  intros ev q1 qt w'. subst w'. unfold drop.
  rewrite (settle_start d w connectionName connection _ Hquiet Hreg Hopen).
  cbv zeta. fold ev.
  set (h := next_handle w) in *.
  set (w2 := set_conn connectionName h _).
  assert (Hh2 : handle_of w2 connectionName = Some h).
  { unfold w2. eapply handle_of_set_conn. simpl. exact Hreg. }
  assert (Ht2 : trace w2 = (trace w ++ [ev])%list).
  { unfold w2, set_conn. simpl. rewrite Hreg. reflexivity. }
  assert (Hq2 : queue w2 = []).
  { unfold w2, set_conn. simpl. rewrite Hreg. reflexivity. }
  change (turns_of (POpen connectionName (OpDrop collectionName (r1 :: rest)) (inr h)) - 1)
    with (S (S (2 + List.length rest))).
  cbn [run_op]. unfold __DROP__. rewrite Hh2. unfold eachSeries.
  rewrite (dropTable_issues d _ _ _ h) by exact Hh2.
  fold q1. change ("DROP TABLE " ++ collectionName) with (drop_query collectionName).
  unfold conn_query. cbn [trace emit schedule set_queue]. fold qt.
  assert (E1 : (trace w2 ++ [q1])%list = (trace w ++ [ev; q1])%list)
    by (now rewrite Ht2, <- app_assoc).
  assert (E2 : ((trace w2 ++ [q1]) ++ [qt])%list = (trace w ++ [ev; q1; qt])%list)
    by (now rewrite Ht2, <- !app_assoc).
  change (drv_query d (trace w ++ [ev; q1])%list = inl err) in Hfail.
  rewrite E2, E1, Hfail.
  set (a2 := drv_query d (trace w ++ [ev; q1; qt])%list).
  rewrite (run_S d _ _ (PQuery (K_next connectionName collectionName rest) (inl err))
             [PQuery K_passCallback a2])
    by (cbn [queue schedule emit]; now rewrite Hq2).
  cbn [run_pending run_kont].
  rewrite (run_S d _ _ (PQuery K_passCallback a2) []) by reflexivity.
  cbn [run_pending run_kont]. rewrite passCallback_emits.
  rewrite !run_idle by reflexivity.
  split; [|reflexivity].
  cbn [trace emit schedule set_queue cb]. rewrite Ht2, <- !app_assoc. reflexivity.
Qed.

Lemma drop_first_relation_fails_witness :
  trace (settle (Sample.driver_failing "DROP TABLE r1" Sample.not_found)
           (drop (Sample.driver_failing "DROP TABLE r1" Sample.not_found)
                 "c" "t" ["r1"; "r2"; "r3"] Sample.registered))
  = [EvOpen false Sample.connectionString;
     EvQuery 0 "DROP TABLE r1" None;
     EvQuery 0 "DROP TABLE t" (Some [Js.Str "r1"; Js.Str "r2"; Js.Str "r3"]);
     EvCb (Some Sample.not_found) RNone;
     EvCb None (RRows [])].
Proof.
  refine (proj1 (drop_first_relation_fails
                   (Sample.driver_failing "DROP TABLE r1" Sample.not_found)
                   Sample.registered "c" "t" "r1" ["r2"; "r3"]
                   {| config := Sample.cfg; collections := [("t", Sample.people)];
                      rc_pool := false; conn := None |}
                   Sample.not_found _ _ _ _)); reflexivity.
Defined.

(** ** Driver errors, end to end *)

Section ErrorPolicy.

Variable d : Driver.
Variable w : World.
Variables connectionName collectionName : string.
Variable connection : RegisteredConnection.
Hypothesis Hquiet : queue w = [].
Hypothesis Hreg : Js.get (connections w) connectionName = Some connection.

Local Abbreviation ev :=
  (EvOpen (rc_pool connection) (getConnectionString (config connection))).
Local Abbreviation h := (next_handle w).

(** An operation of one statement whose callback hands an error over as it
    is. *)
Lemma statement_error (op : Op) (sql : string) (params : option (list Js.value))
    (k : Kont) (err : DriverError) :
  drv_open d (trace w ++ [ev])%list = None ->
  turns_of (POpen connectionName op (inr h)) = 2 ->
  (forall w2, handle_of w2 connectionName = Some h ->
              run_op d connectionName op w2 = conn_query d h sql params k w2) ->
  (forall w3, run_kont d k (inl err) w3 = cb (Some err) RNone w3) ->
  drv_query d (trace w ++ [ev; EvQuery h sql params])%list = inl err ->
  trace (settle d (start d connectionName op w))
  = (trace w ++ [ev; EvQuery h sql params; EvCb (Some err) RNone])%list.
Proof.
  intros Hopen Hturns Hbody Hk Hfail.
  destruct (settle_statement d w connectionName connection op sql params k
              Hquiet Hreg Hopen Hturns Hbody)
    as (w3 & Ht3 & _ & _ & _ & ->).
  rewrite Hfail, Hk. simpl. rewrite Ht3, <- app_assoc. reflexivity.
Qed.

(** [drop] without relations: the DROP TABLE of the target is issued twice
    and each answer goes through passCallback. *)
Lemma drop_target_only :
  drv_open d (trace w ++ [ev])%list = None ->
  let q1 := EvQuery h (drop_query collectionName) None in
  let qt := EvQuery h (drop_query collectionName) (Some []) in
  trace (settle d (drop d connectionName collectionName [] w))
  = (trace w
     ++ [ev; q1; qt;
         passCallback_event (drv_query d (trace w ++ [ev; q1])%list);
         passCallback_event (drv_query d (trace w ++ [ev; q1; qt])%list)])%list.
Proof.
  intros Hopen q1 qt. unfold drop.
  rewrite (settle_start d w connectionName connection _ Hquiet Hreg Hopen).
  cbv zeta.
  set (w2 := set_conn connectionName h _).
  assert (Hh2 : handle_of w2 connectionName = Some h).
  { unfold w2. eapply handle_of_set_conn. simpl. exact Hreg. }
  assert (Ht2 : trace w2 = (trace w ++ [ev])%list).
  { unfold w2, set_conn. simpl. rewrite Hreg. reflexivity. }
  assert (Hq2 : queue w2 = []).
  { unfold w2, set_conn. simpl. rewrite Hreg. reflexivity. }
  change (turns_of (POpen connectionName (OpDrop collectionName []) (inr h)) - 1)
    with 3.
  cbn [run_op]. unfold __DROP__. rewrite Hh2. unfold eachSeries.
  rewrite (dropTable_issues d _ _ _ h) by exact Hh2.
  fold q1. change ("DROP TABLE " ++ collectionName) with (drop_query collectionName).
  unfold conn_query. cbn [trace emit schedule set_queue map]. fold qt.
  assert (E1 : (trace w2 ++ [q1])%list = (trace w ++ [ev; q1])%list)
    by (now rewrite Ht2, <- app_assoc).
  assert (E2 : ((trace w2 ++ [q1]) ++ [qt])%list = (trace w ++ [ev; q1; qt])%list)
    by (now rewrite Ht2, <- !app_assoc).
  rewrite E2, E1.
  set (a1 := drv_query d (trace w ++ [ev; q1])%list).
  set (a2 := drv_query d (trace w ++ [ev; q1; qt])%list).
  rewrite (run_S d _ _ (PQuery K_passCallback a1) [PQuery K_passCallback a2])
    by (cbn [queue schedule emit]; now rewrite Hq2).
  cbn [run_pending run_kont]. rewrite passCallback_emits.
  rewrite (run_S d _ _ (PQuery K_passCallback a2) []) by reflexivity.
  cbn [run_pending run_kont]. rewrite passCallback_emits.
  rewrite !run_idle by reflexivity.
  cbn [trace emit schedule set_queue]. rewrite Ht2, <- !app_assoc. reflexivity.
Qed.

(** [drop] when the DROP TABLE of the first relation is answered with an
    error: the series ends, and the answer to the DROP TABLE of the target,
    which has been issued already, goes through passCallback. *)
Lemma drop_first_error (r1 : string) (rest : list string) (err : DriverError) :
  drv_open d (trace w ++ [ev])%list = None ->
  let q1 := EvQuery h (drop_query r1) None in
  let qt := EvQuery h (drop_query collectionName) (Some (map Js.Str (r1 :: rest))) in
  drv_query d (trace w ++ [ev; q1])%list = inl err ->
  trace (settle d (drop d connectionName collectionName (r1 :: rest) w))
  = (trace w
     ++ [ev; q1; qt; EvCb (Some err) RNone;
         passCallback_event (drv_query d (trace w ++ [ev; q1; qt])%list)])%list.
Proof.
  intros Hopen q1 qt Hfail. unfold drop.
  rewrite (settle_start d w connectionName connection _ Hquiet Hreg Hopen).
  cbv zeta.
  set (w2 := set_conn connectionName h _).
  assert (Hh2 : handle_of w2 connectionName = Some h).
  { unfold w2. eapply handle_of_set_conn. simpl. exact Hreg. }
  assert (Ht2 : trace w2 = (trace w ++ [ev])%list).
  { unfold w2, set_conn. simpl. rewrite Hreg. reflexivity. }
  assert (Hq2 : queue w2 = []).
  { unfold w2, set_conn. simpl. rewrite Hreg. reflexivity. }
  change (turns_of (POpen connectionName (OpDrop collectionName (r1 :: rest)) (inr h)) - 1)
    with (S (S (2 + List.length rest))).
  cbn [run_op]. unfold __DROP__. rewrite Hh2. unfold eachSeries.
  rewrite (dropTable_issues d _ _ _ h) by exact Hh2.
  fold q1. change ("DROP TABLE " ++ collectionName) with (drop_query collectionName).
  unfold conn_query. cbn [trace emit schedule set_queue]. fold qt.
  assert (E1 : (trace w2 ++ [q1])%list = (trace w ++ [ev; q1])%list)
    by (now rewrite Ht2, <- app_assoc).
  assert (E2 : ((trace w2 ++ [q1]) ++ [qt])%list = (trace w ++ [ev; q1; qt])%list)
    by (now rewrite Ht2, <- !app_assoc).
  rewrite E2, E1, Hfail.
  set (a2 := drv_query d (trace w ++ [ev; q1; qt])%list).
  rewrite (run_S d _ _ (PQuery (K_next connectionName collectionName rest) (inl err))
             [PQuery K_passCallback a2])
    by (cbn [queue schedule emit]; now rewrite Hq2).
  cbn [run_pending run_kont].
  rewrite (run_S d _ _ (PQuery K_passCallback a2) []) by reflexivity.
  cbn [run_pending run_kont]. rewrite passCallback_emits.
  rewrite !run_idle by reflexivity.
  cbn [trace emit schedule set_queue cb]. rewrite Ht2, <- !app_assoc. reflexivity.
Qed.

End ErrorPolicy.



(** ** What the callbacks never do *)

Lemma trace_set_conn (connectionName : string) (h : Handle) (w : World) :
  trace (set_conn connectionName h w) = trace w.
Proof.
  unfold set_conn. destruct (Js.get (connections w) connectionName); reflexivity.
Qed.

Section Adds.

Variable d : Driver.
Variable P : Event -> Prop.
Hypothesis Pquery : forall h sql params, P (EvQuery h sql params).
Hypothesis Pcb : forall err result, P (EvCb err result).
Hypothesis Pthrow : P EvTypeError.

Lemma adds_refl (w : World) : adds P w w.
Proof.
  exists []. now rewrite app_nil_r.
Qed.

Lemma adds_emit (e : Event) (w : World) : P e -> adds P w (emit e w).
Proof.
  intros He. exists [e]. auto.
Qed.

Lemma adds_trans (w1 w2 w3 : World) : adds P w1 w2 -> adds P w2 w3 -> adds P w1 w3.
Proof.
  intros (e1 & H1 & Hp1) (e2 & H2 & Hp2). exists (e1 ++ e2)%list.
  rewrite H2, H1, app_assoc. split; [reflexivity | now apply Forall_app].
Qed.

Lemma adds_conn_query (h : Handle) (sql : string) (params : option (list Js.value))
    (k : Kont) (w : World) :
  adds P w (conn_query d h sql params k w).
Proof.
  exists [EvQuery h sql params]. auto.
Qed.

Lemma adds_dropTable (connectionName tableName : string) (next : Kont) (w : World) :
  adds P w (dropTable d connectionName tableName next w).
Proof.
  unfold dropTable. destruct (handle_of w connectionName);
    [apply adds_conn_query | now apply adds_emit].
Qed.

Lemma adds_eachSeries (connectionName collectionName : string)
    (relations : list string) (w : World) :
  adds P w (eachSeries d connectionName collectionName relations w).
Proof.
  destruct relations; apply adds_dropTable.
Qed.

Lemma adds_run_kont (k : Kont) (answer : DriverError + list Row) (w : World) :
  adds P w (run_kont d k answer w).
Proof.
  destruct k as [qcb|cn col rest| | |]; simpl run_kont.
  - destruct qcb, answer as [err|rows]; simpl query_cb; try (apply adds_emit; auto).
    + destruct (negb (state_is err "42S01")); apply adds_emit; auto.
    + destruct (Nat.eqb (List.length rows) 0); [apply adds_emit; auto|].
      destruct (describe_forEach rows []); apply adds_emit; auto.
  - destruct answer; [apply adds_emit; auto | apply adds_eachSeries].
  - rewrite passCallback_emits. apply adds_emit.
    destruct answer as [err|rows]; simpl; [destruct (state_is err "42S02")|]; auto.
  - destruct answer; apply adds_emit; auto.
  - destruct answer; apply adds_emit; auto.
Qed.

Lemma adds_run_op (connectionName : string) (op : Op) (w : World) :
  adds P w (run_op d connectionName op w).
Proof.
  destruct op as [query data qcb|col relations|c o|c v|c o v|c o]; simpl run_op.
  - unfold __QUERY__. destruct (handle_of w connectionName);
      [apply adds_conn_query | now apply adds_emit].
  - unfold __DROP__. destruct (handle_of w connectionName); [|now apply adds_emit].
    eapply adds_trans; [apply adds_eachSeries | apply adds_conn_query].
  - unfold __FIND__. destruct c as [c|]; [|now apply adds_emit].
    destruct (handle_of w connectionName); [|now apply adds_emit].
    destruct (find_sql c o). apply adds_conn_query.
  - unfold __CREATE__. destruct c as [c|]; [|now apply adds_emit].
    destruct (handle_of w connectionName); [|now apply adds_emit].
    apply adds_conn_query.
  - unfold __UPDATE__. destruct c as [c|]; [|now apply adds_emit].
    destruct (handle_of w connectionName); [|now apply adds_emit].
    apply adds_conn_query.
  - unfold __DESTROY__. destruct c as [c|]; [|now apply adds_emit].
    destruct (handle_of w connectionName); [|now apply adds_emit].
    destruct (destroy_sql c o). apply adds_conn_query.
Qed.

Lemma adds_step (w : World) : adds P w (step d w).
Proof.
  unfold step. destruct (queue w) as [|p rest]; [apply adds_refl|].
  destruct p as [cn op [err|h]|k answer]; cbn [run_pending].
  - rewrite operationCallback_refused. apply (adds_emit _ (set_queue rest w)).
    unfold refused_event, define_event.
    destruct op as [query data []| | | | |]; try destruct (state_is err "42S01"); auto.
  - unfold operationCallback.
    destruct (adds_run_op cn op (set_conn cn h (set_queue rest w))) as (evs & Ht & Hp).
    exists evs. rewrite Ht, trace_set_conn. auto.
  - apply (adds_run_kont k answer (set_queue rest w)).
Qed.

Lemma adds_run (n : nat) : forall w, adds P w (run d n w).
Proof.
  induction n as [|n IH]; intros w; simpl; [apply adds_refl|].
  eapply adds_trans; [apply adds_step | apply IH].
Qed.

End Adds.

Lemma closes_none (evs : list Event) : Forall not_open_close evs -> closes evs = [].
Proof.
  induction 1 as [|e evs He _ IH]; [reflexivity|].
  unfold closes in *. simpl. rewrite IH. destruct e; simpl in *; tauto.
Qed.

Lemma opens_none (evs : list Event) : Forall not_open_close evs -> opens evs = [].
Proof.
  induction 1 as [|e evs He _ IH]; [reflexivity|].
  unfold opens in *. simpl. rewrite IH. destruct e; simpl in *; tauto.
Qed.

(** X23: Whatever the world and the driver, the turns of the event loop neither
    ask for a handle nor close one: the handles closed and the open
    requests of the trace stay what they were.  Calling an operation adds
    one event, the open request or a TypeError, and registering a
    connection adds none: a handle is never closed but by teardown. *)
Theorem callbacks_never_open_or_close (d : Driver) (w : World) :
  (forall n, adds not_open_close w (run d n w)
             /\ closes (trace (run d n w)) = closes (trace w)
             /\ opens (trace (run d n w)) = opens (trace w))
  /\ (forall connectionName op,
         closes (trace (start d connectionName op w)) = closes (trace w)
         /\ exists e, trace (start d connectionName op w) = (trace w ++ [e])%list
                      /\ (e = EvTypeError \/ exists viaPool s, e = EvOpen viaPool s))
  /\ (forall connection collections,
         trace (snd (registerConnection connection collections w)) = trace w).
Proof.
  split; [|split].
  - intros n.
    assert (Hadds : adds not_open_close w (run d n w)).
    { apply adds_run; simpl; auto. }
    split; [exact Hadds|]. destruct Hadds as (evs & -> & Hp).
    unfold closes, opens. rewrite !flat_map_app.
    fold (closes evs) (opens evs). rewrite (closes_none evs Hp), (opens_none evs Hp).
    now rewrite !app_nil_r.
  - intros connectionName op. unfold start.
    destruct (Js.get (connections w) connectionName) as [c|].
    + cbv zeta. destruct (drv_open d _); simpl; unfold closes;
        rewrite flat_map_app; simpl; rewrite app_nil_r; eauto 7.
    + simpl. unfold closes. rewrite flat_map_app. simpl. rewrite app_nil_r. eauto.
  - intros connection collections. unfold registerConnection.
    destruct (identity connection) as [id|]; [|reflexivity].
    destruct (id =? ""); [reflexivity|].
    destruct (Js.hasOwnProperty (connections w) id); reflexivity.
Qed.

(** ** Connection handles, for every operation *)



(** ** The registry *)

Lemma get_remove_same {A} (o : Js.object A) (k : string) : Js.get (Js.remove o k) k = None.
Proof.
  induction o as [|[k0 v0] rest IH]; simpl; [reflexivity|].
  destruct (String.eqb_spec k0 k) as [->|Hne]; simpl; [exact IH|].
  destruct (String.eqb_spec k0 k); [contradiction | exact IH].
Qed.

Lemma get_remove_other {A} (o : Js.object A) (k k' : string) :
  k <> k' -> Js.get (Js.remove o k) k' = Js.get o k'.
Proof.
  intros Hne. induction o as [|[k0 v0] rest IH]; simpl; [reflexivity|].
  destruct (String.eqb_spec k0 k) as [->|Hne0]; simpl.
  - destruct (String.eqb_spec k k'); [contradiction | exact IH].
  - destruct (String.eqb k0 k'); [reflexivity | exact IH].
Qed.

Lemma keys_remove_In {A} (o : Js.object A) (k k' : string) :
  In k' (Js.keys (Js.remove o k)) -> In k' (Js.keys o).
Proof.
  induction o as [|[k0 v0] rest IH]; simpl; [auto|].
  destruct (String.eqb k0 k); simpl; tauto.
Qed.

Lemma NoDup_keys_remove {A} (o : Js.object A) (k : string) :
  NoDup (Js.keys o) -> NoDup (Js.keys (Js.remove o k)).
Proof.
  induction o as [|[k0 v0] rest IH]; simpl; [auto|].
  intros Hnd. inversion Hnd as [|? ? Hnot Hrest]; subst.
  destruct (String.eqb k0 k); simpl; [auto|].
  constructor; [|auto]. intros Hin. apply Hnot. eapply keys_remove_In. exact Hin.
Qed.

Lemma registerConnection_new
    (connection : Config) (collections : Js.object Collection) (w : World)
    (id : string) :
  identity connection = Some id -> id <> "" -> Js.get (connections w) id = None ->
  let w' := snd (registerConnection connection collections w) in
  fst (registerConnection connection collections w) = None
  /\ Js.get (connections w') id
     = Some {| config := connection; collections := collections;
               rc_pool := pool connection; conn := None |}
  /\ (forall other, other <> id ->
                    Js.get (connections w') other = Js.get (connections w) other)
  /\ trace w' = trace w /\ queue w' = queue w /\ next_handle w' = next_handle w
  /\ registerConnection connection collections w' = (Some IdentityDuplicate, w').
Proof.
  intros Hid Hne Hget. unfold registerConnection. rewrite Hid.
  destruct (String.eqb_spec id "") as [|_]; [contradiction|].
  unfold Js.hasOwnProperty. rewrite Hget.
  cbn [fst snd set_connections connections trace queue next_handle].
  rewrite get_set, String.eqb_refl.
  repeat split.
  intros other Hother. rewrite get_set.
  destruct (String.eqb_spec id other); [congruence | reflexivity].
Qed.

(** X24: A connection is registered once (its identity being no inherited
    property name): with an identity that is not yet in
    the registry, [registerConnection] adds the entry, with its pool flag
    and without a handle, and touches nothing else: no other entry, no
    handle, nothing of the driver; a second registration under the same
    identity is rejected as a duplicate and changes nothing.  With an
    identity that is in the registry the call is rejected at once. *)
Theorem registerConnection_registers_once
    (connection : Config) (collections : Js.object Collection) (w : World)
    (id : string)
    (Hid : identity connection = Some id) (Hne : id <> "")
    (Hown : inherited_property id = false) :
  match Js.get (connections w) id with
  | Some _ =>
      registerConnection connection collections w = (Some IdentityDuplicate, w)
  | None =>
      let w' := snd (registerConnection connection collections w) in
      fst (registerConnection connection collections w) = None
      /\ Js.get (connections w') id
         = Some {| config := connection; collections := collections;
                   rc_pool := pool connection; conn := None |}
      /\ (forall other, other <> id ->
                        Js.get (connections w') other = Js.get (connections w) other)
      /\ trace w' = trace w /\ queue w' = queue w /\ next_handle w' = next_handle w
      /\ registerConnection connection collections w' = (Some IdentityDuplicate, w')
  end.
Proof.
  destruct (Js.get (connections w) id) as [entry|] eqn:Hget.
  - unfold registerConnection. rewrite Hid.
    destruct (String.eqb_spec id "") as [|_]; [contradiction|].
    unfold Js.hasOwnProperty. now rewrite Hget.
  - now apply registerConnection_new.
Qed.

Lemma registerConnection_registers_once_witness :
  registerConnection Sample.cfg [] Sample.registered
  = (Some IdentityDuplicate, Sample.registered).
Proof.
  refine (registerConnection_registers_once Sample.cfg [] Sample.registered "c"
            eq_refl _ eq_refl).
  discriminate.
Defined.

(** A connection without identity, or with the empty one, is rejected and
    the registry is left as it is. *)
Theorem registerConnection_needs_identity
    (connection : Config) (collections : Js.object Collection) (w : World)
    (Hmissing : identity connection = None \/ identity connection = Some "") :
  registerConnection connection collections w = (Some IdentityMissing, w).
Proof.
  unfold registerConnection. destruct Hmissing as [-> | ->]; reflexivity.
Qed.

(** X25: An operation on a connection that has just been registered (under
    an identity that is no inherited property name) asks for
    its handle with the connection string of the registered configuration,
    through the pool exactly when the configuration has the pool flag, and
    works on the collections given at registration. *)
Theorem registered_connection_is_used
    (d : Driver) (connection : Config) (collections : Js.object Collection)
    (w : World) (id : string)
    (Hid : identity connection = Some id) (Hne : id <> "")
    (Hown : inherited_property id = false)
    (Hnew : Js.get (connections w) id = None) :
  let w' := snd (registerConnection connection collections w) in
  let ev := EvOpen (pool connection) (getConnectionString connection) in
  (forall op,
      trace (start d id op w') = (trace w ++ [ev])%list
      /\ queue (start d id op w')
         = (queue w ++ [POpen id op match drv_open d (trace w ++ [ev])%list with
                                    | Some err => inl err
                                    | None => inr (next_handle w)
                                    end])%list)
  /\ forall collectionName,
       collection_of w' id collectionName = Js.get collections collectionName.
Proof.
  intros w' ev.
  destruct (registerConnection_new connection collections w id Hid Hne Hnew)
    as (_ & Hget & _ & Ht & Hq & Hn & _).
  fold w' in Hget, Ht, Hq, Hn. split.
  - intros op. unfold start. rewrite Hget. cbv zeta.
    cbn [trace emit config rc_pool]. fold ev. rewrite Ht.
    destruct (drv_open d (trace w ++ [ev])%list);
      cbn [trace queue emit schedule fresh_handle next_handle];
      now rewrite Ht, Hq, ?Hn.
  - intros collectionName. unfold collection_of. now rewrite Hget.
Qed.

Lemma registerConnection_needs_identity_witness :
  registerConnection {| identity := Some ""; database := "db"; host := "h"; user := "u";
                        password := "p"; port := 50000; pool := true |} [] empty_world
  = (Some IdentityMissing, empty_world).
Proof.
  apply registerConnection_needs_identity. now right.
Defined.

Lemma registered_connection_is_used_witness :
  trace (start Sample.driver_ok "c" (OpQuery "SELECT 1" None CbCaller) Sample.registered)
  = [EvOpen false Sample.connectionString].
Proof.
  refine (proj1 (proj1 (registered_connection_is_used Sample.driver_ok Sample.cfg
                          [("t", Sample.people)] empty_world "c" eq_refl _ eq_refl
                          eq_refl)
                   (OpQuery "SELECT 1" None CbCaller))).
  discriminate.
Defined.

(** ** Registry invariants *)

Lemma keys_set_conn (connectionName : string) (h : Handle) (w : World) :
  Js.keys (connections (set_conn connectionName h w)) = Js.keys (connections w).
Proof.
  unfold set_conn.
  destruct (Js.get (connections w) connectionName) eqn:Hget; [|reflexivity].
  simpl. rewrite keys_set. unfold Js.hasOwnProperty. now rewrite Hget.
Qed.

Lemma keys_step (d : Driver) (w : World) :
  Js.keys (connections (step d w)) = Js.keys (connections w).
Proof.
  unfold step. destruct (queue w) as [|p rest]; [reflexivity|].
  destruct p as [cn op [err|h]|k answer]; cbn [run_pending].
  - now rewrite operationCallback_refused.
  - unfold operationCallback.
    destruct (framed_run_op d cn op (set_conn cn h (set_queue rest w))) as (-> & _).
    now rewrite keys_set_conn.
  - now destruct (framed_run_kont d k answer (set_queue rest w)) as (-> & _).
Qed.

Lemma connections_start (d : Driver) (connectionName : string) (op : Op) (w : World) :
  connections (start d connectionName op w) = connections w.
Proof.
  unfold start. destruct (Js.get (connections w) connectionName); [|reflexivity].
  cbv zeta. destruct (drv_open d _); reflexivity.
Qed.

(** X26: In every world that registrations, operations, turns of the event
    loop and teardowns lead to, each connection name is in the registry at
    most once and none is empty. *)
Theorem reachable_names_unique (d : Driver) (w : World) (Hreach : reachable d w) :
  NoDup (Js.keys (connections w)) /\ ~ In "" (Js.keys (connections w)).
Proof.
  induction Hreach as [|connection collections w _ (IH1 & IH2)|cn op w _ IH
                      |w _ IH|cn w _ (IH1 & IH2)].
  - split; [constructor | intros []].
  - unfold registerConnection.
    destruct (identity connection) as [id|]; [|now split].
    destruct (String.eqb_spec id "") as [|Hne]; [now split|].
    destruct (Js.hasOwnProperty (connections w) id) eqn:Hown; [now split|].
    cbn [snd set_connections connections]. split.
    + now apply NoDup_keys_set.
    + rewrite keys_set, Hown. rewrite in_app_iff. simpl. intuition congruence.
  - now rewrite connections_start.
  - now rewrite keys_step.
  - unfold teardown, closeConnection.
    destruct (Js.get (connections w) cn) as [c|]; [|now split].
    assert (Hkeys : forall w1, connections w1 = connections w ->
                     NoDup (Js.keys (Js.remove (connections w1) cn))
                     /\ ~ In "" (Js.keys (Js.remove (connections w1) cn))).
    { intros w1 ->. split; [now apply NoDup_keys_remove|].
      intros Hin. apply IH2. eapply keys_remove_In. exact Hin. }
    destruct (conn c); apply Hkeys; reflexivity.
Qed.

Lemma reachable_names_unique_witness :
  NoDup (Js.keys (connections Sample.registered)).
Proof.
  exact (proj1 (reachable_names_unique Sample.driver_ok Sample.registered
                  (reach_register Sample.driver_ok Sample.cfg [("t", Sample.people)]
                     empty_world (reach_empty Sample.driver_ok)))).
Defined.

(** ** Teardown *)

(** X27: [teardown] of a registered name (no inherited property name)
    closes the handle stored on the connection, if there is one, and no
    other, and removes the entry and
    only it: afterwards every operation on the name, and a second teardown,
    throw a TypeError, and the name can be registered again. *)
Theorem teardown_removes_connection
    (w : World) (connectionName : string) (connection : RegisteredConnection)
    (Hreg : Js.get (connections w) connectionName = Some connection)
    (Hown : inherited_property connectionName = false) :
  let w' := teardown connectionName w in
  trace w' = (trace w ++ match conn connection with
                         | Some h => [EvClose h]
                         | None => []
                         end)%list
  /\ Js.get (connections w') connectionName = None
  /\ (forall other, other <> connectionName ->
                    Js.get (connections w') other = Js.get (connections w) other)
  /\ (forall d op, start d connectionName op w' = emit EvTypeError w')
  /\ teardown connectionName w' = emit EvTypeError w'
  /\ (forall config collections,
         identity config = Some connectionName -> connectionName <> "" ->
         fst (registerConnection config collections w') = None).
Proof.
  intros w'.
  assert (Hnone : Js.get (connections w') connectionName = None).
  { unfold w', teardown, closeConnection. rewrite Hreg.
    destruct (conn connection); simpl; apply get_remove_same. }
  split; [|split; [exact Hnone|split; [|split; [|split]]]].
  - unfold w', teardown, closeConnection. rewrite Hreg.
    destruct (conn connection); simpl; [reflexivity | now rewrite app_nil_r].
  - intros other Hother. unfold w', teardown, closeConnection. rewrite Hreg.
    destruct (conn connection); simpl; apply get_remove_other; congruence.
  - intros d op. unfold start. now rewrite Hnone.
  - unfold teardown at 1. unfold closeConnection. now rewrite Hnone.
  - intros config collections Hid Hne.
    apply (registerConnection_new config collections w' connectionName Hid Hne Hnone).
Qed.

Lemma teardown_removes_connection_witness :
  trace (teardown "c" (set_conn "c" 4 Sample.registered)) = [EvClose 4].
Proof.
  exact (proj1 (teardown_removes_connection (set_conn "c" 4 Sample.registered) "c"
                  {| config := Sample.cfg; collections := [("t", Sample.people)];
                     rc_pool := false; conn := Some 4 |} eq_refl eq_refl)).
Defined.

(** X28: [teardown] called without a name hands each registry entry itself, not
    its name, to closeConnection, which looks the entry up under
    "[object Object]": unless a connection is registered under that very
    name, the call throws a TypeError at the first entry, closes no handle
    and removes nothing.  On an empty registry it does nothing; with a name
    it is the teardown of that name. *)
Theorem teardown_without_name_throws (w : World)
    (Hobject : Js.get (connections w) "[object Object]" = None) :
  (connections w <> [] ->
   teardownWith None w = emit EvTypeError w
   /\ teardownWith (Some "") w = emit EvTypeError w)
  /\ (connections w = [] -> teardownWith None w = w)
  /\ (forall name, name <> "" -> teardownWith (Some name) w = teardown name w).
Proof.
  split; [|split].
  - intros Hne.
    assert (Hfirst : exists name entry rest,
               Js.keys (connections w) = name :: rest
               /\ Js.get (connections w) name = Some entry).
    { destruct (connections w) as [|[name entry] rest]; [congruence|].
      exists name, entry, (Js.keys rest). simpl. now rewrite String.eqb_refl. }
    destruct Hfirst as (name & entry & rest & Hk & Hg).
    unfold teardownWith. change ("" =? "") with true. cbv iota.
    rewrite Hk. cbn [closeEach]. rewrite Hg. cbn [entry_as_name].
    rewrite Hobject. auto.
  - intros Hc. unfold teardownWith. rewrite Hc. reflexivity.
  - intros name Hname. unfold teardownWith.
    destruct (String.eqb_spec name ""); [contradiction | reflexivity].
Qed.

Lemma teardown_without_name_throws_witness :
  teardownWith None (set_conn "c" 4 Sample.registered)
  = emit EvTypeError (set_conn "c" 4 Sample.registered).
Proof.
  refine (proj1 (proj1 (teardown_without_name_throws (set_conn "c" 4 Sample.registered)
                          eq_refl) _)).
  discriminate.
Defined.

(** ** The findOneById accessor *)

Lemma set_get_same {A} (o : Js.object A) (k : string) (v : A) :
  Js.get o k = Some v -> Js.set o k v = o.
Proof.
  induction o as [|[k0 v0] rest IH]; simpl; [discriminate|].
  destruct (String.eqb_spec k0 k) as [->|_].
  - intros H. now injection H as ->.
  - intros H. now rewrite IH.
Qed.

Section FindById.

Context {A : Type}.
Variable truthy : A -> bool.

Lemma mirror_idempotent (collection : Js.object A) :
  mirror_findOneByID truthy (mirror_findOneByID truthy collection)
  = mirror_findOneByID truthy collection.
Proof.
  unfold mirror_findOneByID at 2.
  destruct (Js.get collection "findOneByID") as [f|] eqn:Hget.
  - destruct (truthy f) eqn:Ht.
    + unfold mirror_findOneByID. rewrite get_set.
      change ("findOneById" =? "findOneByID") with false. cbv iota.
      rewrite Hget, Ht. apply set_get_same.
      now rewrite get_set, String.eqb_refl.
    + unfold mirror_findOneByID. now rewrite Hget, Ht.
  - unfold mirror_findOneByID. now rewrite Hget.
Qed.

(** One turn of the loop, on the collection [name]. *)
Lemma fix_step (collections : Js.object (Js.object A)) (name : string) :
  match Js.get collections name with
  | Some collection =>
      match Js.get collection "findOneByID" with
      | Some f =>
          if truthy f
          then Js.set collections name (Js.set collection "findOneById" f)
          else collections
      | None => collections
      end
  | None => collections
  end
  = match Js.get collections name with
    | Some collection => Js.set collections name (mirror_findOneByID truthy collection)
    | None => collections
    end.
Proof.
  destruct (Js.get collections name) as [collection|] eqn:Hget; [|reflexivity].
  unfold mirror_findOneByID.
  destruct (Js.get collection "findOneByID") as [f|];
    [destruct (truthy f)|]; try reflexivity; symmetry; now apply set_get_same.
Qed.

Lemma fix_fold (names : list string) :
  forall collections : Js.object (Js.object A),
    let fixed :=
      fold_left (fun collections name =>
                   match Js.get collections name with
                   | Some collection =>
                       match Js.get collection "findOneByID" with
                       | Some f =>
                           if truthy f
                           then Js.set collections name (Js.set collection "findOneById" f)
                           else collections
                       | None => collections
                       end
                   | None => collections
                   end) names collections in
    Js.keys fixed = Js.keys collections
    /\ forall name,
         Js.get fixed name
         = if existsb (fun n => n =? name) names
           then option_map (mirror_findOneByID truthy) (Js.get collections name)
           else Js.get collections name.
Proof.
  induction names as [|n names IH]; intros collections; cbn [fold_left existsb].
  - split; reflexivity.
  - rewrite fix_step.
    set (next := match Js.get collections n with
                 | Some collection =>
                     Js.set collections n (mirror_findOneByID truthy collection)
                 | None => collections
                 end).
    assert (Hkeys : Js.keys next = Js.keys collections).
    { unfold next. destruct (Js.get collections n) eqn:Hget; [|reflexivity].
      rewrite keys_set. unfold Js.hasOwnProperty. now rewrite Hget. }
    assert (Hnext : forall name,
               Js.get next name
               = if n =? name
                 then option_map (mirror_findOneByID truthy) (Js.get collections name)
                 else Js.get collections name).
    { intros name. unfold next.
      destruct (Js.get collections n) as [collection|] eqn:Hget.
      - rewrite get_set. destruct (String.eqb_spec n name) as [<-|_]; [|reflexivity].
        now rewrite Hget.
      - destruct (String.eqb_spec n name) as [<-|_]; [|reflexivity].
        now rewrite Hget. }
    destruct (IH next) as (IHk & IHg). cbv zeta in IHk, IHg. split.
    + now rewrite IHk.
    + intros name. rewrite IHg, Hnext.
      destruct (n =? name); simpl.
      * destruct (existsb _ names); [|reflexivity].
        destruct (Js.get collections name); simpl; [|reflexivity].
        now rewrite mirror_idempotent.
      * reflexivity.
Qed.

Lemma existsb_keys (collections : Js.object (Js.object A)) (name : string) :
  existsb (fun n => n =? name) (Js.keys collections) = false ->
  Js.get collections name = None.
Proof.
  intros H. apply get_None_iff. intros Hin.
  assert (Ht : existsb (fun n => n =? name) (Js.keys collections) = true).
  { apply existsb_exists. exists name. split; [exact Hin | apply String.eqb_refl]. }
  congruence.
Qed.

(** X29: [_fixDynamicallyGeneratedFindById] keeps the names of the collections
    and their order; in a collection whose [findOneByID] is truthy it makes
    [findOneById] that same value, and it changes no other property; a
    collection without a truthy [findOneByID] is left as it is. *)
Theorem fixFindById_mirrors_accessor
    (collections : Js.object (Js.object A)) (name : string)
    (collection : Js.object A)
    (Hget : Js.get collections name = Some collection) :
  Js.keys (_fixDynamicallyGeneratedFindById truthy collections) = Js.keys collections
  /\ exists fixed,
       Js.get (_fixDynamicallyGeneratedFindById truthy collections) name = Some fixed
       /\ (forall k, k <> "findOneById" -> Js.get fixed k = Js.get collection k)
       /\ match Js.get collection "findOneByID" with
          | Some f =>
              if truthy f then Js.get fixed "findOneById" = Some f
              else fixed = collection
          | None => fixed = collection
          end.
Proof.
  unfold _fixDynamicallyGeneratedFindById.
  destruct (fix_fold (Js.keys collections) collections) as (Hk & Hg).
  cbv zeta in Hk, Hg. split; [exact Hk|].
  exists (mirror_findOneByID truthy collection). split; [|split].
  - rewrite Hg, Hget. simpl.
    destruct (existsb _ (Js.keys collections)) eqn:He; [reflexivity|].
    apply existsb_keys in He. congruence.
  - intros k Hk'. unfold mirror_findOneByID.
    destruct (Js.get collection "findOneByID") as [f|]; [|reflexivity].
    destruct (truthy f); [|reflexivity].
    rewrite get_set. destruct (String.eqb_spec "findOneById" k); [congruence | reflexivity].
  - unfold mirror_findOneByID.
    destruct (Js.get collection "findOneByID") as [f|]; [|reflexivity].
    destruct (truthy f); [|reflexivity].
    now rewrite get_set, String.eqb_refl.
Qed.

End FindById.

Lemma fixFindById_mirrors_accessor_witness :
  Js.keys (_fixDynamicallyGeneratedFindById (fun b : bool => b)
             [("user", [("findOneByID", true); ("find", true)]); ("pet", [("find", true)])])
  = ["user"; "pet"].
Proof.
  exact (proj1 (fixFindById_mirrors_accessor (fun b : bool => b)
                  [("user", [("findOneByID", true); ("find", true)]);
                   ("pet", [("find", true)])]
                  "user" [("findOneByID", true); ("find", true)] eq_refl)).
Defined.

Example fixFindById_sample :
  _fixDynamicallyGeneratedFindById (fun b : bool => b)
    [("user", [("findOneByID", true); ("find", true)]); ("pet", [("find", true)])]
  = [("user", [("findOneByID", true); ("find", true); ("findOneById", true)]);
     ("pet", [("find", true)])].
Proof. reflexivity. Qed.

(** ** The connection string *)

Lemma split_at_semicolon (a a' r r' : string) :
  has_semicolon a = false -> has_semicolon a' = false ->
  a ++ String ";"%char r = a' ++ String ";"%char r' -> a = a' /\ r = r'.
Proof.
  revert a'. induction a as [|c a IH]; intros [|c' a'] Ha Ha' Heq; simpl in *.
  - injection Heq as ->. auto.
  - injection Heq as <- _. apply orb_false_iff in Ha'. destruct Ha' as (Hc & _).
    discriminate Hc.
  - injection Heq as -> _. apply orb_false_iff in Ha. destruct Ha as (Hc & _).
    discriminate Hc.
  - injection Heq as -> Heq.
    apply orb_false_iff in Ha. apply orb_false_iff in Ha'.
    destruct (IH a' (proj2 Ha) (proj2 Ha') Heq) as (-> & ->). auto.
Qed.

Lemma digits_no_semicolon (u : Decimal.uint) :
  has_semicolon (NilEmpty.string_of_uint u) = false.
Proof.
  induction u; simpl; auto.
Qed.

Lemma string_of_N_no_semicolon (n : N) : has_semicolon (Js.string_of_N n) = false.
Proof.
  unfold Js.string_of_N, NilZero.string_of_uint.
  destruct (N.to_uint n); try reflexivity; apply digits_no_semicolon.
Qed.

Lemma to_uint_not_Nil (n : N) : N.to_uint n <> Decimal.Nil.
Proof.
  destruct n as [|p]; [discriminate|]. simpl.
  apply DecimalPos.Unsigned.to_uint_nonnil.
Qed.

Lemma string_of_N_inj (n n' : N) : Js.string_of_N n = Js.string_of_N n' -> n = n'.
Proof.
  unfold Js.string_of_N. intros H.
  apply (f_equal NilZero.uint_of_string) in H.
  rewrite !NilZero.usu in H by apply to_uint_not_Nil.
  injection H as H. now apply DecimalN.Unsigned.to_uint_inj.
Qed.

Lemma getConnectionString_form (config : Config) :
  getConnectionString config
  = "DRIVER={DB2};DATABASE=" ++ database config
    ++ ";HOSTNAME=" ++ host config
    ++ ";UID=" ++ user config
    ++ ";PWD=" ++ password config
    ++ ";PORT=" ++ Js.string_of_N (port config) ++ ";PROTOCOL=TCPIP".
Proof.
  unfold getConnectionString, Js.join. cbn [String.concat].
  cbn [String.append]. reflexivity.
Qed.

(** X3: The connection string holds the database, host, user, password and
    port of the configuration, and nothing of its identity or pool flag:
    two configurations whose database, host, user and password have no
    semicolon and that give the same connection string agree on all five. *)
Theorem connection_string_determines_target (config1 config2 : Config)
    (H1 : has_semicolon (database config1) = false
          /\ has_semicolon (host config1) = false
          /\ has_semicolon (user config1) = false
          /\ has_semicolon (password config1) = false)
    (H2 : has_semicolon (database config2) = false
          /\ has_semicolon (host config2) = false
          /\ has_semicolon (user config2) = false
          /\ has_semicolon (password config2) = false)
    (Heq : getConnectionString config1 = getConnectionString config2) :
  database config1 = database config2
  /\ host config1 = host config2
  /\ user config1 = user config2
  /\ password config1 = password config2
  /\ port config1 = port config2.
Proof.
  destruct H1 as (Hd1 & Hh1 & Hu1 & Hp1), H2 as (Hd2 & Hh2 & Hu2 & Hp2).
  rewrite !getConnectionString_form in Heq.
  cbn [String.append] in Heq.
  repeat match type of Heq with String _ _ = String _ _ => injection Heq as Heq end.
  apply split_at_semicolon in Heq; [|assumption|assumption].
  destruct Heq as (Hd & Heq).
  repeat match type of Heq with String _ _ = String _ _ => injection Heq as Heq end.
  apply split_at_semicolon in Heq; [|assumption|assumption].
  destruct Heq as (Hh & Heq).
  repeat match type of Heq with String _ _ = String _ _ => injection Heq as Heq end.
  apply split_at_semicolon in Heq; [|assumption|assumption].
  destruct Heq as (Hu & Heq).
  repeat match type of Heq with String _ _ = String _ _ => injection Heq as Heq end.
  apply split_at_semicolon in Heq; [|assumption|assumption].
  destruct Heq as (Hp & Heq).
  repeat match type of Heq with String _ _ = String _ _ => injection Heq as Heq end.
  apply split_at_semicolon in Heq; try apply string_of_N_no_semicolon.
  destruct Heq as (Hport & _). apply string_of_N_inj in Hport.
  auto.
Qed.

Lemma connection_string_determines_target_witness :
  port Sample.cfg = 50000%N.
Proof.
  refine (proj2 (proj2 (proj2 (proj2
            (connection_string_determines_target Sample.cfg
               {| identity := None; database := "db"; host := "h"; user := "u";
                  password := "p"; port := 50000; pool := true |} _ _ _)))));
    repeat split.
Defined.

(** With a semicolon in a field the string no longer tells the fields
    apart. *)
Example connection_string_with_semicolon :
  getConnectionString {| identity := None; database := "a;HOSTNAME=b"; host := "c";
                         user := "u"; password := "p"; port := 1; pool := false |}
  = getConnectionString {| identity := None; database := "a"; host := "b;HOSTNAME=c";
                           user := "u"; password := "p"; port := 1; pool := false |}.
Proof. reflexivity. Qed.
